(** * CodeSync: the operational-transformation engine

    A shallow embedding of [backend/src/services/operationTransform.ts]:
    the [Operation] model, [OperationTransform] (apply, transform, compose,
    validation) and [OperationHistory].

    JavaScript values are modelled as the code meets them:
    - a string is a [string] whose characters stand for UTF-16 code units;
    - a value of type [string | undefined] is an [option string];
    - a value of type [number | undefined] is a [jsnum]: [Undefined], [NaN]
      or [Num z], the number whose value is the integer [z].  Fractions and
      [Infinity], which the validator lets through, are outside the model,
      and so is rounding: the sums and differences of [Js] are those of the
      source as long as operands and result stay within [2^53] in
      magnitude.  A property that holds of integer lengths only, or within
      that range only, says so in a hypothesis ([integral], a bound by
      [2^53]);
    - a call either returns, throws or loops for ever: [outcome]. *)

From Stdlib Require Import ZArith String Ascii List Lia Bool.
From stdpp Require Import base tactics option list gmap strings.

Local Open Scope Z_scope.
Set Warnings "-clear-no-such-hyp".

(** ** JavaScript numbers and strings *)

Inductive jsnum : Type :=
| Undefined
| NaN
| Num (z : Z).

#[global] Instance jsnum_eq_dec : EqDecision jsnum.
Proof. solve_decision. Defined.

Module Js.

(** [ToNumber] followed by the arithmetic operator, on integers: exact,
    which the doubles of the source are up to [2^53] in magnitude. *)
Definition add (a b : jsnum) : jsnum :=
  match a, b with
  | Num x, Num y => Num (x + y)
  | _, _ => NaN
  end.

Definition sub (a b : jsnum) : jsnum :=
  match a, b with
  | Num x, Num y => Num (x - y)
  | _, _ => NaN
  end.

(** [Math.min(a, b)] *)
Definition min (a b : jsnum) : jsnum :=
  match a, b with
  | Num x, Num y => Num (Z.min x y)
  | _, _ => NaN
  end.

(** [a <= b] and [a > b]: false as soon as one side is not a number. *)
Definition le (a b : jsnum) : bool :=
  match a, b with
  | Num x, Num y => x <=? y
  | _, _ => false
  end.

Definition gt (a b : jsnum) : bool :=
  match a, b with
  | Num x, Num y => y <? x
  | _, _ => false
  end.

(** [a === 0] *)
Definition is_zero (a : jsnum) : bool :=
  match a with
  | Num 0 => true
  | _ => false
  end.

(** Truthiness of a number: [undefined], [NaN] and [0] are falsy. *)
Definition truthy (a : jsnum) : bool :=
  match a with
  | Num z => negb (z =? 0)
  | _ => false
  end.

(** Truthiness of a string: [undefined] and [''] are falsy. *)
Definition truthy_str (s : option string) : bool :=
  match s with
  | Some s => negb (String.eqb s "")
  | None => false
  end.

(** [a || 0] on numbers and [s || ''] on strings. *)
Definition or_zero (a : jsnum) : Z :=
  match a with
  | Num z => z
  | _ => 0
  end.

Definition or_empty (s : option string) : string :=
  match s with
  | Some s => s
  | None => ""
  end.

(** [s.length] *)
Definition strlen (s : string) : Z := Z.of_nat (String.length s).

(** [ToIntegerOrInfinity] clamped to [0 .. len], as [substring] does. *)
Definition clamp (len : Z) (a : jsnum) : Z :=
  match a with
  | Num z => Z.min (Z.max z 0) len
  | _ => 0
  end.

(** [s.substring(start, stop)]; an [Undefined] [stop] is the call with one
    argument and means the end of the string. *)
Definition substring (s : string) (start stop : jsnum) : string :=
  let len := strlen s in
  let a := clamp len start in
  let b := match stop with Undefined => len | _ => clamp len stop end in
  let lo := Z.min a b in
  let hi := Z.max a b in
  String.substring (Z.to_nat lo) (Z.to_nat (hi - lo)) s.

(** [result += v] where [v] may be [undefined]. *)
Definition to_string (s : option string) : string :=
  match s with
  | Some s => s
  | None => "undefined"
  end.

End Js.

(** ** Outcomes of a call *)

Inductive exn : Type :=
| TypeError
| Error (msg : string).

Inductive outcome (A : Type) : Type :=
| Returns (a : A)
| Throws (e : exn)
| Diverges.
Arguments Returns {A} a.
Arguments Throws {A} e.
Arguments Diverges {A}.

#[global] Instance outcome_bind : MBind outcome := fun A B k m =>
  match m with
  | Returns a => k a
  | Throws e => Throws e
  | Diverges => Diverges
  end.

(** A [while] loop: one turn either leaves the loop with the value computed
    so far, goes on with a new state, or throws.  [fuel] bounds the number
    of turns taken; running out of it stands for a loop that does not end. *)
Inductive turn (S R : Type) : Type :=
| Exit (r : R)
| Next (s : S)
| Raise (e : exn).
Arguments Exit {S R} r.
Arguments Next {S R} s.
Arguments Raise {S R} e.

Fixpoint while {S R : Type} (fuel : nat) (body : S -> turn S R) (s : S)
  : outcome R :=
  match body s with
  | Exit r => Returns r
  | Raise e => Throws e
  | Next s' =>
      match fuel with
      | O => Diverges
      | Datatypes.S fuel => while fuel body s'
      end
  end.

(** ** The operation model *)

Inductive OpType : Type := retain | insert | delete.

#[global] Instance OpType_eq_dec : EqDecision OpType.
Proof. solve_decision. Defined.

(** [interface Operation].  [type] is [None] when the field holds anything
    outside the union ['retain' | 'insert' | 'delete'] (the [default] arm of
    the switches). *)
Module Operation.
Record t : Type := mk {
  id : option string;
  type : option OpType;
  length : jsnum;
  content : option string;
  author : option string;
  timestamp : jsnum;
  fileId : option string
}.
End Operation.
Abbreviation Operation := Operation.t.

(** An element of [TextOperation.ops]. *)
Module Step.
Record t : Type := mk {
  type : OpType;
  length : jsnum;
  content : option string
}.

Definition with_length (s : t) (n : jsnum) : t :=
  mk (type s) n (content s).

Definition with_content (s : t) (c : option string) : t :=
  mk (type s) (length s) c.
End Step.
Abbreviation Step := Step.t.

Record TextOperation : Type := { ops : list Step }.

Module OperationTransform.

(** [private static operationToTextOp] *)
Definition operationToTextOp (op : Operation) : TextOperation :=
  match Operation.type op with
  | Some insert =>
      {| ops := [Step.mk insert Undefined (Operation.content op)] |}
  | Some delete =>
      {| ops := [Step.mk delete (Operation.length op) None] |}
  | Some retain =>
      {| ops := [Step.mk retain (Operation.length op) None] |}
  | None => {| ops := [] |}
  end.

(** One turn of the [for] loop of [applyTextOperation]; the state is
    [(result, index)]. *)
Definition apply_step (text : string) (st : string * jsnum) (op : Step)
  : string * jsnum :=
  let '(result, index) := st in
  match Step.type op with
  | retain =>
      (String.append result
         (Js.substring text index (Js.add index (Step.length op))),
       Js.add index (Step.length op))
  | insert =>
      (String.append result (Js.to_string (Step.content op)), index)
  | delete =>
      (result, Js.add index (Step.length op))
  end.

(** [static applyTextOperation] *)
Definition applyTextOperation (text : string) (operation : TextOperation)
  : string :=
  fst (fold_left (apply_step text) (ops operation) (EmptyString, Num 0)).

(** [static applyOperation] *)
Definition applyOperation (text : string) (operation : Operation) : string :=
  applyTextOperation text (operationToTextOp operation).

(** [static isValidOperation] *)
Definition isValidOperation (op : Operation) : bool :=
  if negb (Js.truthy_str (Operation.id op))
     || negb (Js.truthy_str (Operation.author op))
     || negb (Js.truthy_str (Operation.fileId op))
     || negb (Js.truthy (Operation.timestamp op))
  then false
  else
    match Operation.type op with
    | Some insert =>
        match Operation.content op with
        | Some c => 0 <? Js.strlen c
        | None => false
        end
    | Some delete | Some retain =>
        match Operation.length op with
        | Num n => 0 <? n
        | _ => false
        end
    | None => false
    end.

(** [private static compactTextOperation]: one turn of its loop.  [lastOp]
    is the copy pushed earlier, so updating it touches [compacted] only. *)
Definition compact_step (compacted : list Step) (op : Step) : list Step :=
  match last compacted with
  | Some lastOp =>
      if decide (Step.type lastOp = Step.type op) then
        let merged :=
          match Step.type op with
          | retain | delete =>
              Step.with_length lastOp
                (Num (Js.or_zero (Step.length lastOp)
                      + Js.or_zero (Step.length op)))
          | insert =>
              Step.with_content lastOp
                (Some (String.append (Js.or_empty (Step.content lastOp))
                                     (Js.or_empty (Step.content op))))
          end in
        <[pred (List.length compacted) := merged]> compacted
      else compacted ++ [op]
  | None => compacted ++ [op]
  end.

Definition compactTextOperation (textOp : TextOperation) : TextOperation :=
  {| ops := fold_left compact_step (ops textOp) [] |}.

(** [operation.length -= n; if (operation.length === 0) index++]: the
    remaining steps once the current one has been shortened. *)
Definition shorten (operation : Step) (rest : list Step) (n : jsnum)
  : list Step :=
  let len := Js.sub (Step.length operation) n in
  if Js.is_zero len then rest else Step.with_length operation len :: rest.

(** [operation.content!.length]: reading [length] of [undefined] throws,
    which is the [None] here. *)
Definition content_length (operation : Step) : option jsnum :=
  match Step.content operation with
  | Some c => Some (Num (Js.strlen c))
  | None => None
  end.

(** The state of the two-cursor loops: the steps of [ops1] from index [i]
    on, the steps of [ops2] from index [j] on, and [result.ops].  The
    heads are [operation1] and [operation2] with the lengths the loop has
    left them.  A step is pushed only in the turn that moves past it, so
    later updates never reach a pushed step. *)
Abbreviation cursors := (list Step * list Step * list Step)%type.

(** One turn of the [while] loop of [transformTextOperations]. *)
Definition transform_turn (priority : bool) (st : cursors)
  : turn cursors (list Step) :=
  let '(ops1, ops2, result) := st in
  match ops1, ops2 with
  | [], [] => Exit result
  | [], operation2 :: rest2 =>
      Next ([], rest2, result ++ [operation2])
  | operation1 :: rest1, [] =>
      Next (rest1, [], result ++ [operation1])
  | operation1 :: rest1, operation2 :: rest2 =>
    match Step.type operation1, Step.type operation2 with
    | retain, retain =>
        let minLength :=
          Js.min (Step.length operation1) (Step.length operation2) in
        Next (shorten operation1 rest1 minLength,
              shorten operation2 rest2 minLength,
              result ++ [Step.mk retain minLength None])
    | insert, insert =>
        if priority then
          Next (rest1, ops2, result ++ [operation1])
        else
          match content_length operation2 with
          | Some len =>
              Next (rest1, rest2,
                    result ++ [Step.mk retain len None; operation1])
          | None => Raise TypeError
          end
    | insert, retain =>
        Next (rest1, ops2, result ++ [operation1])
    | insert, delete =>
        Next (rest1, ops2, result ++ [operation1])
    | retain, insert =>
        match content_length operation2 with
        | Some len =>
            Next (ops1, rest2, result ++ [Step.mk retain len None])
        | None => Raise TypeError
        end
    | retain, delete =>
        let deleteLength := Step.length operation2 in
        let retainLength := Step.length operation1 in
        if Js.le retainLength deleteLength then
          Next (rest1, shorten operation2 rest2 retainLength, result)
        else
          Next (Step.with_length operation1
                  (Js.sub retainLength deleteLength) :: rest1,
                rest2, result)
    | delete, retain =>
        let deleteLength := Step.length operation1 in
        let retainLength := Step.length operation2 in
        if Js.le deleteLength retainLength then
          Next (rest1, shorten operation2 rest2 deleteLength,
                result ++ [operation1])
        else
          Next (Step.with_length operation1
                  (Js.sub deleteLength retainLength) :: rest1,
                rest2, result ++ [Step.mk delete retainLength None])
    | delete, insert =>
        match content_length operation2 with
        | Some len =>
            Next (ops1, rest2, result ++ [Step.mk retain len None])
        | None => Raise TypeError
        end
    | delete, delete =>
        let minLength :=
          Js.min (Step.length operation1) (Step.length operation2) in
        Next (shorten operation1 rest1 minLength,
              shorten operation2 rest2 minLength,
              result)
    end
  end.

(** [static transformTextOperations].  The source updates the steps of its
    two arguments in place; [transform] hands it scripts of its own making,
    so nothing else sees the updates.  Steps are values here: this is the
    call on scripts that share no step object, as those of [transform]
    are.  A loop that comes to its end moves
    [i] or [j] in every turn, so [ops1.length + ops2.length] turns are all
    it can take; a loop given that many and still running never ends
    (see [transform_fuel_enough]). *)
Definition transformTextOperations (op1 op2 : TextOperation)
    (priority : bool) : outcome TextOperation :=
  result ← while (List.length (ops op1) + List.length (ops op2))
             (transform_turn priority) (ops op1, ops op2, []);
  Returns (compactTextOperation {| ops := result |}).

(** [private static textOpToOperation]: [firstOp.type] throws when
    [textOp.ops] is empty. *)
Definition textOpToOperation (textOp : TextOperation)
    (originalOp : Operation) : outcome Operation :=
  match ops textOp with
  | firstOp :: _ =>
      Returns (Operation.mk
                 (Operation.id originalOp)
                 (Some (Step.type firstOp))
                 (Step.length firstOp)
                 (Step.content firstOp)
                 (Operation.author originalOp)
                 (Operation.timestamp originalOp)
                 (Operation.fileId originalOp))
  | [] => Throws TypeError
  end.

(** [static transform] *)
Definition transform (op1 op2 : Operation) (priority : bool)
  : outcome Operation :=
  if decide (Operation.fileId op1 <> Operation.fileId op2) then
    Returns op1
  else
    let textOp1 := operationToTextOp op1 in
    let textOp2 := operationToTextOp op2 in
    transformed ← transformTextOperations textOp1 textOp2 priority;
    textOpToOperation transformed op1.

(** One turn of the [while] loop of [composeTextOperations]. *)
Definition compose_turn (st : cursors) : turn cursors (list Step) :=
  let '(ops1, ops2, result) := st in
  match ops1, ops2 with
  | [], [] => Exit result
  | [], operation2 :: rest2 =>
      Next ([], rest2, result ++ [operation2])
  | operation1 :: rest1, [] =>
      Next (rest1, [], result ++ [operation1])
  | operation1 :: rest1, operation2 :: rest2 =>
    match Step.type operation1, Step.type operation2 with
    | retain, retain =>
        let minLength :=
          Js.min (Step.length operation1) (Step.length operation2) in
        Next (shorten operation1 rest1 minLength,
              shorten operation2 rest2 minLength,
              result ++ [Step.mk retain minLength None])
    | insert, retain =>
        match content_length operation1 with
        | Some len =>
            Next (rest1, shorten operation2 rest2 len,
                  result ++ [operation1])
        | None => Raise TypeError
        end
    | insert, delete =>
        match Step.content operation1 with
        | Some content1 =>
            let insertLength := Num (Js.strlen content1) in
            let deleteLength := Step.length operation2 in
            if Js.le insertLength deleteLength then
              Next (rest1, shorten operation2 rest2 insertLength, result)
            else
              Next (rest1, rest2,
                    result ++
                    [Step.mk insert Undefined
                       (Some (Js.substring content1 deleteLength
                                Undefined))])
        | None => Raise TypeError
        end
    | _, _ =>
        Next (rest1, ops2, result ++ [operation1])
    end
  end.

(** [private static composeTextOperations], on scripts that share no step
    object, as those of [compose] are. *)
Definition composeTextOperations (op1 op2 : TextOperation)
  : outcome TextOperation :=
  result ← while (List.length (ops op1) + List.length (ops op2))
             compose_turn (ops op1, ops op2, []);
  Returns (compactTextOperation {| ops := result |}).

(** [static compose] *)
Definition compose (op1 op2 : Operation) : outcome Operation :=
  if decide (Operation.fileId op1 <> Operation.fileId op2) then
    Throws (Error "Cannot compose operations on different files")
  else
    let textOp1 := operationToTextOp op1 in
    let textOp2 := operationToTextOp op2 in
    composed ← composeTextOperations textOp1 textOp2;
    textOpToOperation composed
      (Operation.mk
         (Operation.id op2)
         (Operation.type op1)
         (Operation.length op1)
         (Operation.content op1)
         (Operation.author op1)
         (Operation.timestamp op2)
         (Operation.fileId op1)).

End OperationTransform.

(** ** Operation history *)

Module OperationHistory.

(** [private operations: Map<string, Operation[]>] *)
Abbreviation t := (gmap string (list Operation)).

(** [new OperationHistory()] *)
Definition new : t := ∅.

Definition maxHistorySize : nat := 1000.

(** [history.splice(0, history.length - this.maxHistorySize)] under its
    guard. *)
Definition trim (history : list Operation) : list Operation :=
  if (maxHistorySize <? List.length history)%nat
  then drop (List.length history - maxHistorySize)%nat history
  else history.

Definition addOperation (fileId : string) (operation : Operation)
    (operations : t) : t :=
  let operations :=
    match operations !! fileId with
    | Some _ => operations
    | None => <[fileId := []]> operations
    end in
  let history := default [] (operations !! fileId) in
  <[fileId := trim (history ++ [operation])]> operations.

(** [getOperations(fileId, since?)]: [since] is [Undefined] when the
    argument is left out. *)
Definition getOperations (fileId : string) (since : jsnum)
    (operations : t) : list Operation :=
  let history := default [] (operations !! fileId) in
  if Js.truthy since then
    List.filter (fun op => Js.gt (Operation.timestamp op) since) history
  else history.

Definition getLastOperation (fileId : string) (operations : t)
  : option Operation :=
  last (default [] (operations !! fileId)).

Definition clear (fileId : string) (operations : t) : t :=
  base.delete fileId operations.

Definition clearAll (operations : t) : t := ∅.

End OperationHistory.

(** ** Conflict resolution *)

Module ConflictResolver.

(** [private history = new OperationHistory()].  [addOperation] files an
    operation under [operation.fileId]; the interface makes it a string, and
    an operation without one goes under the key [undefined], which
    [getOperationsSince(fileId: string, ...)] never reads: [unfiled] is the
    list kept under that key. *)
Record t : Type := mk {
  history : OperationHistory.t;
  unfiled : list Operation
}.

(** [new ConflictResolver()] *)
Definition new : t := mk OperationHistory.new [].

(** [a > b] on two authors: code units compared in order, a proper prefix
    being the smaller; false as soon as one side is [undefined]. *)
Definition author_gt (a b : option string) : bool :=
  match a, b with
  | Some x, Some y =>
      match String.compare x y with
      | Gt => true
      | _ => false
      end
  | _, _ => false
  end.

(** The guard of the loop of [resolveConflicts]. *)
Definition concurrent (newOperation existingOp : Operation) : bool :=
  Js.le (Operation.timestamp existingOp) (Operation.timestamp newOperation)
  && bool_decide (Operation.author existingOp <> Operation.author newOperation).

(** The [for] loop of [resolveConflicts]; an exception leaves it. *)
Fixpoint resolve_loop (newOperation : Operation)
    (existingOperations : list Operation) (transformedOp : Operation)
  : outcome Operation :=
  match existingOperations with
  | [] => Returns transformedOp
  | existingOp :: rest =>
      transformedOp ←
        (if concurrent newOperation existingOp then
           let priority :=
             author_gt (Operation.author newOperation)
                       (Operation.author existingOp) in
           OperationTransform.transform transformedOp existingOp priority
         else Returns transformedOp);
      resolve_loop newOperation rest transformedOp
  end.

Definition resolveConflicts (newOperation : Operation)
    (existingOperations : list Operation) : outcome Operation :=
  resolve_loop newOperation existingOperations newOperation.

Definition addOperation (operation : Operation) (resolver : t) : t :=
  match Operation.fileId operation with
  | Some fileId =>
      mk (OperationHistory.addOperation fileId operation (history resolver))
         (unfiled resolver)
  | None =>
      mk (history resolver)
         (OperationHistory.trim (unfiled resolver ++ [operation]))
  end.

Definition getOperationsSince (fileId : string) (timestamp : jsnum)
    (resolver : t) : list Operation :=
  OperationHistory.getOperations fileId timestamp (history resolver).

End ConflictResolver.

(** * Vocabulary of the properties *)

Section Vocabulary.
Import OperationTransform.

(** ** Operations as the tests write them *)

Definition Insert (id author fileId : string) (timestamp : Z)
    (content : string) : Operation :=
  Operation.mk (Some id) (Some insert) Undefined (Some content)
               (Some author) (Num timestamp) (Some fileId).

Definition Delete (id author fileId : string) (timestamp : Z)
    (length : Z) : Operation :=
  Operation.mk (Some id) (Some delete) (Num length) None
               (Some author) (Num timestamp) (Some fileId).

Definition Retain (id author fileId : string) (timestamp : Z)
    (length : Z) : Operation :=
  Operation.mk (Some id) (Some retain) (Num length) None
               (Some author) (Num timestamp) (Some fileId).

(** What an accepted operation looks like, per type. *)
Definition well_typed (op : Operation) : Prop :=
  (Operation.type op = Some insert
   /\ exists c, Operation.content op = Some c /\ c <> EmptyString)
  \/ ((Operation.type op = Some delete \/ Operation.type op = Some retain)
      /\ exists n, Operation.length op = Num n /\ 0 < n).

(** The validator of the specification, word for word: the four fields
    are present, and the payload fits the type. *)
Definition spec_is_valid (op : Operation) : Prop :=
  is_Some (Operation.id op)
  /\ is_Some (Operation.author op)
  /\ is_Some (Operation.fileId op)
  /\ Operation.timestamp op <> Undefined
  /\ well_typed op.

(** The turns left at most: the steps not yet passed. *)
Definition steps_left (st : cursors) : nat :=
  (List.length st.1.1 + List.length st.1.2)%nat.

(** Both heads are of kind [kind] and the minimum of their lengths is not
    a number: a turn that subtracts it from both leaves two [NaN] and
    moves neither index. *)
Definition stuck_at (kind : OpType) (st : cursors) : Prop :=
  exists operation1 rest1 operation2 rest2,
    st.1.1 = operation1 :: rest1
    /\ st.1.2 = operation2 :: rest2
    /\ Step.type operation1 = kind
    /\ Step.type operation2 = kind
    /\ Js.min (Step.length operation1) (Step.length operation2) = NaN.

(** [transformTextOperations] subtracts the minimum on two retains and on
    two deletes, [composeTextOperations] on two retains only. *)
Definition stuck (st : cursors) : Prop :=
  stuck_at retain st \/ stuck_at delete st.

(** The length of a retain or a delete is a number. *)
Definition numeric (operation : Step) : Prop :=
  Step.type operation = insert \/ exists n, Step.length operation = Num n.

Definition all_numeric (st : cursors) : Prop :=
  Forall numeric st.1.1 /\ Forall numeric st.1.2.

(** What [applyOperation] reads of an operation. *)
Definition payload (op : Operation) : option OpType * jsnum * option string :=
  (Operation.type op, Operation.length op, Operation.content op).

(** The calls [addOperation(fileId, operation)] made on a fresh history, in
    order. *)
Definition run (calls : list (string * Operation)) : OperationHistory.t :=
  fold_left (fun operations call =>
               OperationHistory.addOperation call.1 call.2 operations)
            calls OperationHistory.new.

(** The operations appended for [fileId], in append order. *)
Definition appended (fileId : string) (calls : list (string * Operation))
  : list Operation :=
  map snd (List.filter (fun call => bool_decide (call.1 = fileId)) calls).

(** The last [n] elements of a list. *)
Definition last_n {A : Type} (n : nat) (l : list A) : list A :=
  drop (List.length l - n) l.

(** The one way for [transform] to fail on accepted operations of one
    document: a retain or a delete against a delete of the same length
    leaves an empty script. *)
Definition cancelled (op1 op2 : Operation) : Prop :=
  Operation.type op1 <> Some insert
  /\ Operation.type op2 = Some delete
  /\ Operation.length op1 = Operation.length op2.

(** [{...op, type, content, length}]: [op] with another payload. *)
Definition with_payload (op : Operation) (type : OpType) (length : jsnum)
    (content : option string) : Operation :=
  Operation.mk (Operation.id op) (Some type) length content
               (Operation.author op) (Operation.timestamp op)
               (Operation.fileId op).

(** No two neighbours of a script are of the same kind. *)
Fixpoint no_adjacent (script : list Step) : Prop :=
  match script with
  | x :: (y :: _) as rest => Step.type x <> Step.type y /\ no_adjacent rest
  | _ => True
  end.

(** [applyTextOperation] with its index: the state the loop ends in. *)
Definition walk (text : string) (script : list Step) : string * jsnum :=
  fold_left (apply_step text) script (EmptyString, Num 0).

(** The code units a script inserts. *)
Definition inserted (script : list Step) : Z :=
  foldr (fun operation n =>
           match Step.type operation with
           | insert => Js.strlen (Js.to_string (Step.content operation)) + n
           | _ => n
           end) 0 script.

(** The operations the loop of [resolveConflicts] lets change its result:
    concurrent ones of the same document. *)
Definition relevant (newOperation existingOp : Operation) : bool :=
  ConflictResolver.concurrent newOperation existingOp
  && bool_decide (Operation.fileId existingOp = Operation.fileId newOperation).

(** A step a walk over a text can take: an insert carries its content, a
    retain or a delete a length that is a number and not negative. *)
Definition walkable (operation : Step) : Prop :=
  match Step.type operation with
  | insert => is_Some (Step.content operation)
  | retain | delete => exists n, Step.length operation = Num n /\ 0 <= n
  end.

(** The step that stands for [lastOp] followed by [op] of the same kind. *)
Definition merged (lastOp op : Step) : Step :=
  match Step.type op with
  | retain | delete =>
      Step.with_length lastOp
        (Num (Js.or_zero (Step.length lastOp) + Js.or_zero (Step.length op)))
  | insert =>
      Step.with_content lastOp
        (Some (String.append (Js.or_empty (Step.content lastOp))
                             (Js.or_empty (Step.content op))))
  end.

(** The one way for [compose] to fail on accepted operations of one
    document: an insert followed by a delete of the length of its content
    leaves an empty script. *)
Definition absorbed (op1 op2 : Operation) : Prop :=
  Operation.type op1 = Some insert
  /\ Operation.type op2 = Some delete
  /\ exists c, Operation.content op1 = Some c
               /\ Operation.length op2 = Num (Js.strlen c).

(** The length of a retain or a delete is an integer.  The validator of
    the source also accepts a fraction and [Infinity]; accepted operations
    with such lengths are outside the properties that assume [integral]. *)
Definition integral (op : Operation) : Prop :=
  Operation.type op <> Some insert -> exists n, Operation.length op = Num n.

(** The code units a script walks over: the lengths of its retains and
    deletes, summed. *)
Definition walked (script : list Step) : Z :=
  foldr (fun operation n =>
           match Step.type operation with
           | insert => n
           | retain | delete => Js.or_zero (Step.length operation) + n
           end) 0 script.

End Vocabulary.

(** * Properties *)

(** ** Strings *)

Section Strings.

Lemma substring_all (s : string) :
  String.substring 0 (String.length s) s = s.
Proof. induction s as [|c s IH]; simpl; [done | by rewrite IH]. Qed.

Lemma substring_empty (n m : nat) :
  String.substring n m EmptyString = EmptyString.
Proof. by destruct n, m. Qed.

Lemma length_substring_0 (n : nat) (s : string) :
  String.length (String.substring 0 n s) = Nat.min n (String.length s).
Proof.
  revert n. induction s as [|c s IH]; intros [|n]; simpl; try done.
  by rewrite IH.
Qed.

Lemma length_append (s1 s2 : string) :
  String.length (String.append s1 s2)
  = (String.length s1 + String.length s2)%nat.
Proof. induction s1 as [|c s1 IH]; simpl; [done | by rewrite IH]. Qed.

Lemma strlen_nonneg (s : string) : 0 <= Js.strlen s.
Proof. unfold Js.strlen. lia. Qed.

Lemma strlen_pos_nonempty (s : string) :
  0 < Js.strlen s <-> s <> EmptyString.
Proof. unfold Js.strlen. destruct s; simpl; split; (done || lia). Qed.

(** [text.substring(0, n)] keeps the first [min n text.length] code
    units. *)
Lemma substring_prefix (text : string) (n : Z) :
  0 <= n ->
  Js.substring text (Num 0) (Num n)
  = String.substring 0 (Z.to_nat (Z.min n (Js.strlen text))) text.
Proof.
  intros Hn. unfold Js.substring, Js.clamp.
  pose proof (strlen_nonneg text).
  replace (Z.min (Z.min (Z.max 0 0) (Js.strlen text))
                 (Z.min (Z.max n 0) (Js.strlen text))) with 0 by lia.
  replace (Z.max (Z.min (Z.max 0 0) (Js.strlen text))
                 (Z.min (Z.max n 0) (Js.strlen text)) - 0)
    with (Z.min n (Js.strlen text)) by lia.
  done.
Qed.

Lemma substring_prefix_whole (text : string) (n : Z) :
  Js.strlen text <= n -> Js.substring text (Num 0) (Num n) = text.
Proof.
  intros Hn. pose proof (strlen_nonneg text).
  rewrite substring_prefix by lia.
  replace (Z.min n (Js.strlen text)) with (Js.strlen text) by lia.
  unfold Js.strlen. rewrite Nat2Z.id. apply substring_all.
Qed.

Lemma strlen_substring_prefix (text : string) (n : Z) :
  0 <= n ->
  Js.strlen (Js.substring text (Num 0) (Num n)) = Z.min n (Js.strlen text).
Proof.
  intros Hn. rewrite substring_prefix by done.
  unfold Js.strlen. rewrite length_substring_0. lia.
Qed.

End Strings.

(** ** The validator *)

Section Validator.
Import OperationTransform.

Lemma truthy_str_spec (s : option string) :
  Js.truthy_str s = true <-> exists v, s = Some v /\ v <> EmptyString.
Proof.
  destruct s as [v|]; simpl.
  - rewrite negb_true_iff, String.eqb_neq. naive_solver.
  - naive_solver.
Qed.

Lemma truthy_spec (a : jsnum) :
  Js.truthy a = true <-> exists z, a = Num z /\ z <> 0.
Proof.
  destruct a as [| |z]; simpl; [naive_solver..|].
  rewrite negb_true_iff, Z.eqb_neq. naive_solver.
Qed.

Lemma isValidOperation_cases (op : Operation) :
  isValidOperation op = true <->
  Js.truthy_str (Operation.id op) = true
  /\ Js.truthy_str (Operation.author op) = true
  /\ Js.truthy_str (Operation.fileId op) = true
  /\ Js.truthy (Operation.timestamp op) = true
  /\ well_typed op.
Proof.
  unfold isValidOperation, well_typed.
  destruct (Js.truthy_str (Operation.id op)),
           (Js.truthy_str (Operation.author op)),
           (Js.truthy_str (Operation.fileId op)),
           (Js.truthy (Operation.timestamp op)); simpl;
    try (split; [done | naive_solver]).
  destruct (Operation.type op) as [[]|].
  - destruct (Operation.length op) as [| |n];
      try (split; [done | naive_solver]).
    rewrite Z.ltb_lt. naive_solver.
  - destruct (Operation.content op) as [c|];
      [|split; [done | naive_solver]].
    rewrite Z.ltb_lt, strlen_pos_nonempty. naive_solver.
  - destruct (Operation.length op) as [| |n];
      try (split; [done | naive_solver]).
    rewrite Z.ltb_lt. naive_solver.
  - split; [done | naive_solver].
Qed.

Lemma valid_well_typed (op : Operation) :
  isValidOperation op = true -> well_typed op.
Proof. rewrite isValidOperation_cases. tauto. Qed.

End Validator.

(** C7 (counterexample).  An insert whose four provenance fields are all
    present, with timestamp [0], satisfies the validator of the
    specification and is rejected by [isValidOperation]: [!op.timestamp]
    holds for [0]. *)
Lemma isValidOperation_rejects_timestamp_zero :
  let op := Insert "op1" "user1" "file1" 0 "Hello" in
  spec_is_valid op /\ OperationTransform.isValidOperation op = false.
Proof.
  split; [|reflexivity].
  unfold spec_is_valid, well_typed; simpl.
  repeat split; eauto.
Qed.

(** C7 (amended).  [isValidOperation] returns [true] exactly when [id],
    [author] and [fileId] are non-empty strings, [timestamp] is a number
    other than [0] (and other than [NaN]), and the payload fits the type: a
    non-empty string [content] for an insert, a number [length > 0] for a
    delete or a retain.  In every other case, an unrecognised [type]
    included, it returns [false]; being a total function it never raises. *)
Theorem isValidOperation_spec (op : Operation) :
  let accepted :=
    (exists v, Operation.id op = Some v /\ v <> EmptyString)
    /\ (exists v, Operation.author op = Some v /\ v <> EmptyString)
    /\ (exists v, Operation.fileId op = Some v /\ v <> EmptyString)
    /\ (exists z, Operation.timestamp op = Num z /\ z <> 0)
    /\ ((Operation.type op = Some insert
         /\ exists c, Operation.content op = Some c /\ c <> EmptyString)
        \/ ((Operation.type op = Some delete
             \/ Operation.type op = Some retain)
            /\ exists n, Operation.length op = Num n /\ 0 < n)) in
  (OperationTransform.isValidOperation op = true <-> accepted)
  /\ (OperationTransform.isValidOperation op = false <-> ~ accepted)
  /\ (Operation.type op = None ->
      OperationTransform.isValidOperation op = false).
Proof.
  intros accepted.
  assert (Hiff : OperationTransform.isValidOperation op = true <-> accepted).
  { subst accepted.
    by rewrite isValidOperation_cases, !truthy_str_spec, truthy_spec. }
  split; [done|]. split.
  - rewrite <- Hiff. by destruct (OperationTransform.isValidOperation op).
  - intros Hty. apply not_true_is_false. rewrite Hiff.
    intros (_ & _ & _ & _ & [[? _] | [[?|?] _]]); congruence.
Qed.

(** ** The apply engine *)

Section Apply.
Import OperationTransform.

Lemma applyOperation_insert (text : string) (op : Operation) (c : string) :
  Operation.type op = Some insert ->
  Operation.content op = Some c ->
  applyOperation text op = c.
Proof.
  intros Ht Hc. unfold applyOperation, operationToTextOp.
  rewrite Ht, Hc. reflexivity.
Qed.

Lemma applyOperation_delete (text : string) (op : Operation) :
  Operation.type op = Some delete ->
  applyOperation text op = EmptyString.
Proof.
  intros Ht. unfold applyOperation, operationToTextOp.
  rewrite Ht. reflexivity.
Qed.

Lemma applyOperation_retain (text : string) (op : Operation) (n : Z) :
  Operation.type op = Some retain ->
  Operation.length op = Num n ->
  applyOperation text op = Js.substring text (Num 0) (Num n).
Proof.
  intros Ht Hn. unfold applyOperation, operationToTextOp.
  rewrite Ht, Hn. reflexivity.
Qed.

(** Without a recognised [type] the script is empty and so is the
    result. *)
Lemma applyOperation_unrecognised (text : string) (op : Operation) :
  Operation.type op = None -> applyOperation text op = EmptyString.
Proof.
  intros Ht. unfold applyOperation, operationToTextOp.
  rewrite Ht. reflexivity.
Qed.

(** [substring] never yields more than the text holds. *)
Lemma substring_length_le (text : string) (a b : jsnum) :
  Js.strlen (Js.substring text a b) <= Js.strlen text.
Proof.
  unfold Js.substring.
  set (lo := Z.min _ _). set (hi := Z.max _ _).
  unfold Js.strlen.
  assert (Hle : forall n m s,
    (String.length (String.substring n m s) <= String.length s)%nat).
  { clear. intros n m s. revert n m.
    induction s as [|c s IH]; intros [|n] [|m]; simpl; try lia.
    - specialize (IH 0%nat m). lia.
    - specialize (IH n 0%nat). lia.
    - specialize (IH n (S m)). lia. }
  specialize (Hle (Z.to_nat lo) (Z.to_nat (hi - lo)) text). lia.
Qed.

End Apply.

(** C3 (the code at the inputs of the claim).  [applyOperation] drops the
    text that follows the walked range: the delete of 6 on ["Hello World"]
    yields the empty string, where the claim and the repository's test
    ("should apply delete operation correctly") expect ["World"].  The
    retain and the insert yield ["Hello"]. *)
Theorem applyOperation_examples (id author fileId : string) (timestamp : Z) :
  OperationTransform.applyOperation "Hello World"
    (Delete id author fileId timestamp 6) = EmptyString
  /\ OperationTransform.applyOperation "Hello World"
       (Delete id author fileId timestamp 6) <> "World"%string
  /\ OperationTransform.applyOperation "Hello World"
       (Retain id author fileId timestamp 5) = "Hello"%string
  /\ OperationTransform.applyOperation ""
       (Insert id author fileId timestamp "Hello") = "Hello"%string.
Proof. repeat split; try reflexivity. discriminate. Qed.

(** C4.  On a validator-accepted operation [applyOperation] is defined for
    every text (it is a total function: nothing in it can throw) and its
    result is: the content, for an insert; the first [min length
    text.length] code units of the text, for a retain, so a length beyond
    the end is clamped to what the text has; the empty string, for a
    delete, however long. *)
Theorem applyOperation_clamps (text : string) (op : Operation) :
  OperationTransform.isValidOperation op = true ->
  (exists c, Operation.type op = Some insert
             /\ Operation.content op = Some c
             /\ OperationTransform.applyOperation text op = c)
  \/ (exists n, Operation.type op = Some retain
                /\ Operation.length op = Num n
                /\ OperationTransform.applyOperation text op
                   = String.substring 0
                       (Z.to_nat (Z.min n (Js.strlen text))) text
                /\ Js.strlen (OperationTransform.applyOperation text op)
                   = Z.min n (Js.strlen text))
  \/ (exists n, Operation.type op = Some delete
                /\ Operation.length op = Num n
                /\ OperationTransform.applyOperation text op = EmptyString).
Proof.
  intros Hv. apply valid_well_typed in Hv.
  destruct Hv as [[Ht (c & Hc & _)] | [[Ht | Ht] (n & Hn & Hpos)]].
  - left. exists c. eauto using applyOperation_insert.
  - right; right. exists n. eauto using applyOperation_delete.
  - right; left. exists n.
    rewrite (applyOperation_retain text op n Ht Hn).
    rewrite strlen_substring_prefix, substring_prefix by lia. done.
Qed.

(** C4 (witness).  [apply("Hi", Delete(length=10))] is the empty string. *)
Lemma applyOperation_clamps_witness :
  let op := Delete "op1" "user1" "file1" 1000 10 in
  OperationTransform.isValidOperation op = true
  /\ OperationTransform.applyOperation "Hi" op = EmptyString.
Proof.
  assert (Hvalid : OperationTransform.isValidOperation
                     (Delete "op1" "user1" "file1" 1000 10) = true)
    by reflexivity.
  split; [exact Hvalid|].
  destruct (applyOperation_clamps "Hi" _ Hvalid)
    as [(c & Ht & _) | [(n & Ht & _) | (n & _ & _ & Hr)]];
    [discriminate Ht | discriminate Ht | exact Hr].
Defined.

(** ** Loops *)

Section While.
Context {S R : Type} (body : S -> turn S R).

(** More fuel does not change the outcome of a loop that ends. *)
Lemma while_mono (fuel fuel' : nat) (s : S) :
  while fuel body s <> Diverges ->
  (fuel <= fuel')%nat ->
  while fuel' body s = while fuel body s.
Proof.
  revert fuel' s. induction fuel as [|fuel IH]; intros fuel' s Hend Hle.
  - destruct fuel'; simpl in *; destruct (body s); done.
  - destruct fuel' as [|fuel']; [lia|].
    simpl in *. destruct (body s); try done.
    apply IH; [done | lia].
Qed.

(** A measure that every turn decreases bounds the number of turns. *)
Lemma while_terminates (mu : S -> nat) (inv : S -> Prop) :
  (forall s s', inv s -> body s = Next s' -> inv s' /\ (mu s' < mu s)%nat) ->
  forall fuel s, inv s -> (mu s <= fuel)%nat ->
                 while fuel body s <> Diverges.
Proof.
  intros Hstep fuel. induction fuel as [|fuel IH]; intros s Hinv Hle.
  - simpl. destruct (body s) as [| s' |] eqn:Hb; try done.
    destruct (Hstep s s' Hinv Hb). lia.
  - simpl. destruct (body s) as [| s' |] eqn:Hb; try done.
    destruct (Hstep s s' Hinv Hb). apply IH; [done | lia].
Qed.

Section Enough.
Context (mu : S -> nat) (stuck : S -> Prop).
Hypothesis turn_moves :
  forall s s', body s = Next s' -> (mu s' < mu s)%nat \/ stuck s'.
Hypothesis stuck_stays :
  forall s, stuck s -> exists s', body s = Next s' /\ stuck s'.

Lemma stuck_diverges (fuel : nat) (s : S) :
  stuck s -> while fuel body s = Diverges.
Proof.
  revert s. induction fuel as [|fuel IH]; intros s Hs;
    destruct (stuck_stays s Hs) as (s' & Hb & Hs'); simpl; rewrite Hb.
  - done.
  - by apply IH.
Qed.

(** If some amount of fuel lets the loop end, [mu s] turns do. *)
Lemma while_enough (fuel : nat) (s : S) :
  while fuel body s <> Diverges ->
  while (mu s) body s = while fuel body s.
Proof.
  revert s. induction fuel as [|fuel IH]; intros s Hend.
  - simpl in *. destruct (mu s); simpl; destruct (body s); done.
  - simpl in *. destruct (body s) as [| s' |] eqn:Hb.
    + destruct (mu s); simpl; by rewrite Hb.
    + destruct (turn_moves s s' Hb) as [Hlt | Hstuck].
      * destruct (mu s) as [|k] eqn:Hmu; [lia|].
        simpl. rewrite Hb. rewrite <- (IH s' Hend).
        apply while_mono; [|lia].
        by rewrite (IH s' Hend).
      * by rewrite (stuck_diverges fuel s' Hstuck) in Hend.
    + destruct (mu s); simpl; by rewrite Hb.
Qed.
End Enough.

End While.

Section Cursors.
Import OperationTransform.

Lemma shorten_length (operation : Step) (rest : list Step) (n : jsnum) :
  (List.length (shorten operation rest n) <= Datatypes.S (List.length rest))%nat.
Proof. unfold shorten. case_match; simpl; lia. Qed.

Lemma shorten_numeric (operation : Step) (rest : list Step) (n : Z) :
  numeric operation -> Forall numeric rest ->
  Forall numeric (shorten operation rest (Num n)).
Proof.
  intros Hop Hrest. unfold shorten.
  case_match; [done|]. constructor; [|done].
  destruct Hop as [Hins | [m Hm]]; [by left | right].
  rewrite Hm. simpl. by eexists.
Qed.

Lemma shorten_self (operation : Step) (rest : list Step) (n : Z) :
  Step.length operation = Num n -> shorten operation rest (Num n) = rest.
Proof.
  intros Hn. unfold shorten. rewrite Hn. simpl. by rewrite Z.sub_diag.
Qed.

(** Subtracting the minimum of two numbers empties one of the two. *)
Lemma shorten_min (operation1 operation2 : Step) (rest1 rest2 : list Step)
    (n m : Z) :
  Step.length operation1 = Num n ->
  Step.length operation2 = Num m ->
  shorten operation1 rest1 (Num (Z.min n m)) = rest1
  \/ shorten operation2 rest2 (Num (Z.min n m)) = rest2.
Proof.
  intros Hn Hm. destruct (Z.le_ge_cases n m).
  - left. rewrite Z.min_l by done. by apply shorten_self.
  - right. rewrite Z.min_r by done. by apply shorten_self.
Qed.

Lemma shorten_nan (operation : Step) (rest : list Step) :
  shorten operation rest NaN
  = Step.with_length operation NaN :: rest.
Proof. unfold shorten. by destruct (Step.length operation). Qed.

Lemma min_not_num (a b : jsnum) :
  (forall n m, a = Num n -> b = Num m -> False) -> Js.min a b = NaN.
Proof. destruct a, b; simpl; try done. intros H. by destruct (H z z0). Qed.

Lemma numeric_length (operation : Step) :
  numeric operation -> Step.type operation <> insert ->
  exists n, Step.length operation = Num n.
Proof. by intros [?|?]. Qed.

Lemma numeric_with_length (operation : Step) (n : Z) :
  numeric (Step.with_length operation (Num n)).
Proof. right. by exists n. Qed.

Lemma numeric_not_stuck (kind : OpType) (s : cursors) :
  kind <> insert -> all_numeric s -> ~ stuck_at kind s.
Proof.
  destruct s as [[ops1 ops2] result].
  intros Hkind [H1 H2] (operation1 & rest1 & operation2 & rest2
                        & E1 & E2 & Hty1 & Hty2 & Hmin); simpl in *; subst.
  apply Forall_cons in H1 as [H1 _]. apply Forall_cons in H2 as [H2 _].
  destruct (numeric_length _ H1) as [n Hn]; [done|].
  destruct (numeric_length _ H2) as [m Hm]; [congruence|].
  by rewrite Hn, Hm in Hmin.
Qed.

(** The turn on two heads of the same kind that subtracts the minimum. *)
Lemma same_kind_moves (kind : OpType) (operation1 operation2 : Step)
    (rest1 rest2 result result' : list Step) :
  Step.type operation1 = kind ->
  Step.type operation2 = kind ->
  let minLength :=
    Js.min (Step.length operation1) (Step.length operation2) in
  let st := (shorten operation1 rest1 minLength,
             shorten operation2 rest2 minLength, result') in
  (steps_left st
   < steps_left (operation1 :: rest1, operation2 :: rest2, result))%nat
  \/ stuck_at kind st.
Proof.
  intros Hty1 Hty2 minLength st. subst st minLength.
  destruct (Step.length operation1) as [| |n] eqn:H1;
    destruct (Step.length operation2) as [| |m] eqn:H2; simpl Js.min;
    try (right; rewrite !shorten_nan;
         exists (Step.with_length operation1 NaN), rest1,
                (Step.with_length operation2 NaN), rest2;
         by simpl).
  left. unfold steps_left. simpl.
  pose proof (shorten_length operation1 rest1 (Num (Z.min n m))).
  pose proof (shorten_length operation2 rest2 (Num (Z.min n m))).
  destruct (shorten_min operation1 operation2 rest1 rest2 n m H1 H2)
    as [-> | ->]; lia.
Qed.

Lemma same_kind_stays (kind : OpType) (s : cursors) :
  stuck_at kind s ->
  exists operation1 rest1 operation2 rest2,
    s = (operation1 :: rest1, operation2 :: rest2, s.2)
    /\ Step.type operation1 = kind
    /\ Step.type operation2 = kind
    /\ Js.min (Step.length operation1) (Step.length operation2) = NaN
    /\ forall result,
         stuck_at kind (shorten operation1 rest1 NaN,
                        shorten operation2 rest2 NaN, result).
Proof.
  destruct s as [[ops1 ops2] result].
  intros (operation1 & rest1 & operation2 & rest2
          & H1 & H2 & Hty1 & Hty2 & Hmin); simpl in *; subst.
  exists operation1, rest1, operation2, rest2.
  repeat split; try done.
  intros result'. rewrite !shorten_nan.
  by exists (Step.with_length operation1 NaN), rest1,
            (Step.with_length operation2 NaN), rest2.
Qed.

Ltac shorter :=
  left; unfold steps_left; simpl;
  repeat match goal with
  | |- context [shorten ?operation ?rest ?n] =>
      lazymatch goal with
      | _ : (List.length (shorten operation rest n) <= _)%nat |- _ => fail
      | _ => pose proof (shorten_length operation rest n)
      end
  end; lia.

Ltac head_lengths Hn1 Hn2 :=
  try (let n := fresh "n" in let Hlen := fresh "Hlen" in
       destruct (numeric_length _ Hn1) as [n Hlen]; [congruence|];
       rewrite ?Hlen in *);
  try (let m := fresh "m" in let Hlen := fresh "Hlen" in
       destruct (numeric_length _ Hn2) as [m Hlen]; [congruence|];
       rewrite ?Hlen in *).

(** *** The loop of [transformTextOperations] *)

Lemma transform_turn_moves (priority : bool) (s s' : cursors) :
  transform_turn priority s = Next s' ->
  (steps_left s' < steps_left s)%nat \/ stuck s'.
Proof.
  destruct s as [[[|operation1 rest1] [|operation2 rest2]] result];
    simpl; intros Hturn; simplify_eq; try shorter.
  destruct (Step.type operation1) eqn:T1, (Step.type operation2) eqn:T2;
    repeat case_match; simplify_eq; try shorter.
  - destruct (same_kind_moves retain operation1 operation2 rest1 rest2
                result (result ++ [Step.mk retain
                  (Js.min (Step.length operation1) (Step.length operation2))
                  None]) T1 T2); [by left | by right; left].
  - destruct (same_kind_moves delete operation1 operation2 rest1 rest2
                result result T1 T2); [by left | by right; right].
Qed.

Lemma transform_stuck_stays (priority : bool) (s : cursors) :
  stuck s -> exists s', transform_turn priority s = Next s' /\ stuck s'.
Proof.
  intros [Hs | Hs];
    destruct (same_kind_stays _ s Hs)
      as (operation1 & rest1 & operation2 & rest2
          & -> & Hty1 & Hty2 & Hmin & Hstays);
    simpl; rewrite Hty1, Hty2, Hmin; eexists; (split; [done|]).
  - left. apply Hstays.
  - right. apply Hstays.
Qed.

Lemma transform_turn_all_numeric (priority : bool) (s s' : cursors) :
  all_numeric s -> transform_turn priority s = Next s' -> all_numeric s'.
Proof.
  destruct s as [[[|operation1 rest1] [|operation2 rest2]] result];
    intros [H1 H2]; simpl in *; intros Hturn; simplify_eq;
    try (split; simpl; by (eauto using Forall_cons_1, Forall_inv_tail)).
  pose proof H1 as H1'. pose proof H2 as H2'.
  apply Forall_cons in H1' as [Hn1 Hr1].
  apply Forall_cons in H2' as [Hn2 Hr2].
  destruct (Step.type operation1) eqn:T1, (Step.type operation2) eqn:T2;
    head_lengths Hn1 Hn2;
    repeat case_match; simplify_eq; split; simpl;
    eauto using shorten_numeric, numeric_with_length, Forall_cons_2.
Qed.

Lemma transform_turn_numeric (priority : bool) (s s' : cursors) :
  all_numeric s -> transform_turn priority s = Next s' ->
  all_numeric s' /\ (steps_left s' < steps_left s)%nat.
Proof.
  intros Hnum Hturn.
  pose proof (transform_turn_all_numeric _ _ _ Hnum Hturn) as Hnum'.
  split; [done|].
  destruct (transform_turn_moves _ _ _ Hturn) as [?|[Hs|Hs]]; [done|..].
  - by destruct (numeric_not_stuck retain s').
  - by destruct (numeric_not_stuck delete s').
Qed.

(** The fuel [transformTextOperations] gives its loop is enough: if any
    number of turns lets the loop end, it yields the same outcome. *)
Theorem transform_fuel_enough (fuel : nat) (priority : bool)
    (op1 op2 : TextOperation) :
  while fuel (transform_turn priority) (ops op1, ops op2, []) <> Diverges ->
  transformTextOperations op1 op2 priority
  = (result ← while fuel (transform_turn priority) (ops op1, ops op2, []);
     Returns (compactTextOperation {| ops := result |})).
Proof.
  intros Hend. unfold transformTextOperations.
  by rewrite <- (while_enough _ steps_left stuck
                   (transform_turn_moves priority)
                   (transform_stuck_stays priority) fuel _ Hend).
Qed.

(** With numeric lengths the loop ends. *)
Lemma transformTextOperations_ends (priority : bool)
    (op1 op2 : TextOperation) :
  Forall numeric (ops op1) -> Forall numeric (ops op2) ->
  transformTextOperations op1 op2 priority <> Diverges.
Proof.
  intros H1 H2. unfold transformTextOperations.
  pose proof (while_terminates (transform_turn priority) steps_left
                all_numeric (transform_turn_numeric priority)
                (List.length (ops op1) + List.length (ops op2))
                (ops op1, ops op2, []) (conj H1 H2) (le_n _)) as Hend.
  by destruct (while _ _ _).
Qed.

(** *** The loop of [composeTextOperations] *)

Lemma compose_turn_moves (s s' : cursors) :
  compose_turn s = Next s' ->
  (steps_left s' < steps_left s)%nat \/ stuck_at retain s'.
Proof.
  destruct s as [[[|operation1 rest1] [|operation2 rest2]] result];
    simpl; intros Hturn; simplify_eq; try shorter.
  destruct (Step.type operation1) eqn:T1, (Step.type operation2) eqn:T2;
    repeat case_match; simplify_eq; try shorter.
  apply (same_kind_moves retain); done.
Qed.

Lemma compose_stuck_stays (s : cursors) :
  stuck_at retain s ->
  exists s', compose_turn s = Next s' /\ stuck_at retain s'.
Proof.
  intros Hs.
  destruct (same_kind_stays _ s Hs)
    as (operation1 & rest1 & operation2 & rest2
        & -> & Hty1 & Hty2 & Hmin & Hstays).
  simpl. rewrite Hty1, Hty2, Hmin. eexists. split; [done|]. apply Hstays.
Qed.

Lemma compose_turn_all_numeric (s s' : cursors) :
  all_numeric s -> compose_turn s = Next s' -> all_numeric s'.
Proof.
  destruct s as [[[|operation1 rest1] [|operation2 rest2]] result];
    intros [H1 H2]; simpl in *; intros Hturn; simplify_eq;
    try (split; simpl; by (eauto using Forall_cons_1, Forall_inv_tail)).
  pose proof H1 as H1'. pose proof H2 as H2'.
  apply Forall_cons in H1' as [Hn1 Hr1].
  apply Forall_cons in H2' as [Hn2 Hr2].
  destruct (Step.type operation1) eqn:T1, (Step.type operation2) eqn:T2;
    head_lengths Hn1 Hn2; unfold content_length in *;
    repeat case_match; simplify_eq; split; simpl;
    eauto using shorten_numeric, numeric_with_length, Forall_cons_2.
Qed.

Lemma compose_turn_numeric (s s' : cursors) :
  all_numeric s -> compose_turn s = Next s' ->
  all_numeric s' /\ (steps_left s' < steps_left s)%nat.
Proof.
  intros Hnum Hturn.
  pose proof (compose_turn_all_numeric _ _ Hnum Hturn) as Hnum'.
  split; [done|].
  destruct (compose_turn_moves _ _ Hturn) as [?|Hs]; [done|].
  by destruct (numeric_not_stuck retain s').
Qed.

Theorem compose_fuel_enough (fuel : nat) (op1 op2 : TextOperation) :
  while fuel compose_turn (ops op1, ops op2, []) <> Diverges ->
  composeTextOperations op1 op2
  = (result ← while fuel compose_turn (ops op1, ops op2, []);
     Returns (compactTextOperation {| ops := result |})).
Proof.
  intros Hend. unfold composeTextOperations.
  by rewrite <- (while_enough _ steps_left (stuck_at retain)
                   compose_turn_moves compose_stuck_stays fuel _ Hend).
Qed.

Lemma composeTextOperations_ends (op1 op2 : TextOperation) :
  Forall numeric (ops op1) -> Forall numeric (ops op2) ->
  composeTextOperations op1 op2 <> Diverges.
Proof.
  intros H1 H2. unfold composeTextOperations.
  pose proof (while_terminates compose_turn steps_left
                all_numeric compose_turn_numeric
                (List.length (ops op1) + List.length (ops op2))
                (ops op1, ops op2, []) (conj H1 H2) (le_n _)) as Hend.
  by destruct (while _ _ _).
Qed.

End Cursors.

(** ** Transform and compose *)

Section Transform.
Import OperationTransform.

Lemma transform_same_file (op1 op2 : Operation) (priority : bool) :
  Operation.fileId op1 = Operation.fileId op2 ->
  transform op1 op2 priority
  = (transformed ← transformTextOperations (operationToTextOp op1)
                     (operationToTextOp op2) priority;
     textOpToOperation transformed op1).
Proof. intros Hf. unfold transform. by case_decide. Qed.

Lemma compose_same_file (op1 op2 : Operation) :
  Operation.fileId op1 = Operation.fileId op2 ->
  compose op1 op2
  = (composed ← composeTextOperations (operationToTextOp op1)
                  (operationToTextOp op2);
     textOpToOperation composed
       (Operation.mk (Operation.id op2) (Operation.type op1)
          (Operation.length op1) (Operation.content op1)
          (Operation.author op1) (Operation.timestamp op2)
          (Operation.fileId op1))).
Proof. intros Hf. unfold compose. by case_decide. Qed.

Lemma textOpToOperation_frame (textOp : TextOperation)
    (originalOp r : Operation) :
  textOpToOperation textOp originalOp = Returns r ->
  Operation.id r = Operation.id originalOp
  /\ Operation.author r = Operation.author originalOp
  /\ Operation.timestamp r = Operation.timestamp originalOp
  /\ Operation.fileId r = Operation.fileId originalOp.
Proof.
  unfold textOpToOperation. destruct (ops textOp); intros Hr; by simplify_eq.
Qed.

Lemma operationToTextOp_numeric (op : Operation) :
  well_typed op -> Forall numeric (ops (operationToTextOp op)).
Proof.
  unfold operationToTextOp.
  intros [[-> _] | [[-> | ->] (n & Hn & _)]]; simpl;
    apply Forall_singleton; [by left | right; by exists n ..].
Qed.

Lemma transform_valid_ends (op1 op2 : Operation) (priority : bool) :
  isValidOperation op1 = true -> isValidOperation op2 = true ->
  transform op1 op2 priority <> Diverges.
Proof.
  intros H1%valid_well_typed%operationToTextOp_numeric
         H2%valid_well_typed%operationToTextOp_numeric.
  unfold transform. case_decide; [done|].
  pose proof (transformTextOperations_ends priority _ _ H1 H2) as Hend.
  destruct (transformTextOperations _ _ _) as [t| |]; simpl; try done.
  unfold textOpToOperation. by destruct (ops t).
Qed.

(** C10.  On operations of the same document, the operation that
    [transform] returns has the [id], [author], [timestamp] and [fileId]
    of [op1]; only [type], [content] and [length] come from the
    transformed script. *)
Theorem transform_frame (op1 op2 : Operation) (priority : bool)
    (r : Operation) :
  Operation.fileId op1 = Operation.fileId op2 ->
  transform op1 op2 priority = Returns r ->
  Operation.id r = Operation.id op1
  /\ Operation.author r = Operation.author op1
  /\ Operation.timestamp r = Operation.timestamp op1
  /\ Operation.fileId r = Operation.fileId op1.
Proof.
  intros Hf. rewrite transform_same_file by done.
  destruct (transformTextOperations _ _ _) as [t| |]; simpl; try done.
  apply textOpToOperation_frame.
Qed.

(** C6 (the code at a failing input).  Composing an insert with a delete
    of the same length on the same document leaves an empty script, and
    [textOpToOperation] throws a [TypeError] on reading its first step:
    [compose] raises although the documents agree.  With the claim's
    inputs: [compose(Insert("abc"), Delete(3))]. *)
Theorem compose_insert_delete_same_length
    (id1 author1 id2 author2 fileId content : string) (t1 t2 : Z) :
  compose (Insert id1 author1 fileId t1 content)
          (Delete id2 author2 fileId t2 (Js.strlen content))
  = Throws TypeError.
Proof.
  rewrite compose_same_file by done.
  unfold composeTextOperations, operationToTextOp. simpl.
  rewrite Z.leb_refl. unfold shorten. simpl. rewrite Z.sub_diag. simpl.
  done.
Qed.

Lemma js_substring_empty (a b : jsnum) :
  Js.substring EmptyString a b = EmptyString.
Proof. unfold Js.substring. apply substring_empty. Qed.

Ltac compose_eval :=
  rewrite compose_same_file by done;
  unfold composeTextOperations, operationToTextOp;
  repeat match goal with
  | H : Operation.type _ = _ |- _ => rewrite H
  | H : Operation.length _ = _ |- _ => rewrite H
  | H : Operation.content _ = _ |- _ => rewrite H
  end;
  cbn -[Z.leb Z.ltb Z.sub Z.add Z.min Js.strlen Js.substring].

Lemma is_zero_num (z : Z) : Js.is_zero (Num z) = bool_decide (z = 0).
Proof. by destruct z. Qed.

Lemma shorten_num (operation : Step) (rest : list Step) (n m : Z) :
  Step.length operation = Num n ->
  shorten operation rest (Num m)
  = if bool_decide (n - m = 0) then rest
    else Step.with_length operation (Num (n - m)) :: rest.
Proof.
  intros Hn. unfold shorten. rewrite Hn. cbn [Js.sub].
  by rewrite is_zero_num.
Qed.

Lemma applyOperation_payload (text : string) (op op' : Operation) :
  payload op = payload op' ->
  applyOperation text op = applyOperation text op'.
Proof.
  unfold payload, applyOperation, operationToTextOp.
  intros [= Ht Hl Hc]. by rewrite Ht, Hl, Hc.
Qed.

Lemma compose_delete_retain (op1 op2 : Operation) (a b : Z) :
  Operation.fileId op1 = Operation.fileId op2 ->
  Operation.type op1 = Some delete -> Operation.length op1 = Num a ->
  Operation.type op2 = Some retain -> Operation.length op2 = Num b ->
  exists c, compose op1 op2 = Returns c
            /\ payload c = (Some delete, Num a, None).
Proof.
  intros Hf Ht1 Hl1 Ht2 Hl2. compose_eval. by eexists.
Qed.

Lemma compose_delete_delete (op1 op2 : Operation) (a b : Z) :
  Operation.fileId op1 = Operation.fileId op2 ->
  Operation.type op1 = Some delete -> Operation.length op1 = Num a ->
  Operation.type op2 = Some delete -> Operation.length op2 = Num b ->
  exists c, compose op1 op2 = Returns c
            /\ payload c = (Some delete, Num (a + b), None).
Proof.
  intros Hf Ht1 Hl1 Ht2 Hl2. compose_eval. by eexists.
Qed.

Lemma compose_insert_delete_longer (op1 op2 : Operation)
    (content : string) (n : Z) :
  Operation.fileId op1 = Operation.fileId op2 ->
  Operation.type op1 = Some insert -> Operation.content op1 = Some content ->
  Operation.type op2 = Some delete -> Operation.length op2 = Num n ->
  Js.strlen content < n ->
  exists c, compose op1 op2 = Returns c
            /\ payload c = (Some delete, Num (n - Js.strlen content), None).
Proof.
  intros Hf Ht1 Hc1 Ht2 Hl2 Hlt. compose_eval.
  rewrite (proj2 (Z.leb_le _ _)) by lia.
  erewrite shorten_num by done.
  rewrite bool_decide_eq_false_2 by lia. by eexists.
Qed.

Lemma compose_insert_retain_longer (op1 op2 : Operation)
    (content : string) (n : Z) :
  Operation.fileId op1 = Operation.fileId op2 ->
  Operation.type op1 = Some insert -> Operation.content op1 = Some content ->
  Operation.type op2 = Some retain -> Operation.length op2 = Num n ->
  exists c, compose op1 op2 = Returns c
            /\ payload c = (Some insert, Undefined, Some content).
Proof.
  intros Hf Ht1 Hc1 Ht2 Hl2. compose_eval.
  erewrite shorten_num by done. case_bool_decide; by eexists.
Qed.

Lemma length_substring (n m : nat) (s : string) :
  String.length (String.substring n m s)
  = Nat.min m (String.length s - n).
Proof.
  revert n m. induction s as [|c s IH]; intros [|n] [|m]; simpl;
    rewrite ?IH; try lia.
  by destruct (String.length s - n)%nat.
Qed.

Lemma strlen_substring_suffix (s : string) (n : Z) :
  0 <= n <= Js.strlen s ->
  Js.strlen (Js.substring s (Num n) Undefined) = Js.strlen s - n.
Proof.
  intros Hn. unfold Js.substring, Js.clamp.
  unfold Js.strlen in *. rewrite length_substring. lia.
Qed.

Lemma strlen_append (s1 s2 : string) :
  Js.strlen (String.append s1 s2) = Js.strlen s1 + Js.strlen s2.
Proof. unfold Js.strlen. rewrite length_append. lia. Qed.

Lemma compose_retain_retain (op1 op2 : Operation) (a b : Z) :
  Operation.fileId op1 = Operation.fileId op2 ->
  Operation.type op1 = Some retain -> Operation.length op1 = Num a ->
  Operation.type op2 = Some retain -> Operation.length op2 = Num b ->
  0 < a -> 0 < b ->
  exists c, compose op1 op2 = Returns c
            /\ payload c = (Some retain, Num (Z.max a b), None).
Proof.
  intros Hf Ht1 Hl1 Ht2 Hl2 Ha Hb. compose_eval.
  destruct (Z.min_spec a b) as [[Hlt ->] | [Hle ->]];
    erewrite !shorten_num by done;
    repeat case_bool_decide; try lia;
    eexists; (split; [done|]);
    unfold payload; simpl; repeat f_equal; lia.
Qed.

Lemma compose_push_first (op1 op2 : Operation) :
  Operation.fileId op1 = Operation.fileId op2 ->
  well_typed op1 -> well_typed op2 ->
  (Operation.type op1 = Some retain /\ Operation.type op2 <> Some retain)
  \/ (Operation.type op1 = Some delete /\ Operation.type op2 = Some insert) ->
  exists c, compose op1 op2 = Returns c /\ payload c = (Operation.type op1, Operation.length op1, None).
Proof.
  intros Hf [[Ht1 _] | [Ht1 (a & Hl1 & _)]] [[Ht2 (c & Hc & _)] | [Ht2 (b & Hl2 & _)]] Hcase;
  [naive_solver|naive_solver|..].
  - destruct Ht1 as [Ht1|Ht1]; compose_eval; by eexists.
  - destruct Ht1 as [Ht1|Ht1], Ht2 as [Ht2|Ht2]; try naive_solver; compose_eval; by eexists.
Qed.

Lemma compose_insert_insert (op1 op2 : Operation) (c1 c2 : string) :
  Operation.fileId op1 = Operation.fileId op2 ->
  Operation.type op1 = Some insert -> Operation.content op1 = Some c1 ->
  Operation.type op2 = Some insert -> Operation.content op2 = Some c2 ->
  exists c, compose op1 op2 = Returns c
            /\ payload c = (Some insert, Undefined,
                            Some (String.append c1 c2)).
Proof. intros Hf Ht1 Hc1 Ht2 Hc2. compose_eval. by eexists. Qed.

Lemma compose_insert_delete_shorter (op1 op2 : Operation)
    (content : string) (n : Z) :
  Operation.fileId op1 = Operation.fileId op2 ->
  Operation.type op1 = Some insert -> Operation.content op1 = Some content ->
  Operation.type op2 = Some delete -> Operation.length op2 = Num n ->
  n < Js.strlen content ->
  exists c, compose op1 op2 = Returns c
            /\ payload c = (Some insert, Undefined,
                            Some (Js.substring content (Num n) Undefined)).
Proof.
  intros Hf Ht1 Hc1 Ht2 Hl2 Hlt. compose_eval.
  rewrite (proj2 (Z.leb_gt _ _)) by lia. by eexists.
Qed.

Lemma compose_insert_delete_equal (op1 op2 : Operation)
    (content : string) :
  Operation.fileId op1 = Operation.fileId op2 ->
  Operation.type op1 = Some insert -> Operation.content op1 = Some content ->
  Operation.type op2 = Some delete ->
  Operation.length op2 = Num (Js.strlen content) ->
  compose op1 op2 = Throws TypeError.
Proof.
  intros Hf Ht1 Hc1 Ht2 Hl2. compose_eval.
  rewrite Z.leb_refl. by rewrite shorten_self.
Qed.

Ltac transform_eval :=
  rewrite transform_same_file by done;
  unfold transformTextOperations, operationToTextOp;
  repeat match goal with
  | H : Operation.type _ = _ |- _ => rewrite H
  | H : Operation.length _ = _ |- _ => rewrite H
  | H : Operation.content _ = _ |- _ => rewrite H
  end;
  cbn -[Z.leb Z.ltb Z.sub Z.add Z.min Js.strlen Js.substring].

(** X2.  On accepted operations of one document whose lengths are integers
    [transform] ends: it throws a [TypeError] exactly when a retain or a
    delete meets a delete of the same length, which leaves an empty script,
    and returns otherwise. *)
Lemma transform_valid_outcome (op1 op2 : Operation) (priority : bool) :
  isValidOperation op1 = true -> isValidOperation op2 = true ->
  integral op1 -> integral op2 ->
  Operation.fileId op1 = Operation.fileId op2 ->
  (cancelled op1 op2 /\ transform op1 op2 priority = Throws TypeError)
  \/ (~ cancelled op1 op2
      /\ exists r, transform op1 op2 priority = Returns r).
Proof.
  intros Hv1%valid_well_typed Hv2%valid_well_typed _ _ Hf. unfold cancelled.
  destruct Hv1 as [[Ht1 (c1 & Hc1 & Hne1)] | [[Ht1|Ht1] (a & Hl1 & Ha)]];
    destruct Hv2 as [[Ht2 (c2 & Hc2 & Hne2)] | [[Ht2|Ht2] (b & Hl2 & Hb)]];
    try (right; split; [intros (? & ? & ?); congruence|];
         transform_eval;
         try destruct priority;
         try destruct (Z.min_spec a b) as [[? ->] | [? ->]];
         try destruct (Z.leb_spec a b);
         try erewrite !shorten_num by done;
         repeat case_bool_decide; try lia;
         by eexists).
  all: destruct (decide (a = b)) as [-> | Hne];
    [left; split; [repeat split; congruence|]
    |right; split; [intros (? & ? & ?); congruence|]];
    transform_eval;
    try destruct (Z.min_spec a b) as [[? ->] | [? ->]];
    try destruct (Z.leb_spec a b);
    rewrite ?Z.min_id, ?Z.leb_refl;
    try erewrite !shorten_num by done;
    repeat case_bool_decide; try lia;
    first [done | by eexists].
Qed.
End Transform.

(** C10 (witness).  The transform of the test "should transform concurrent
    insert operations". *)
Lemma transform_frame_witness :
  let op1 := Insert "op1" "user1" "file1" 1000 "A" in
  let op2 := Insert "op2" "user2" "file1" 1001 "B" in
  let r := Insert "op1" "user1" "file1" 1000 "AB" in
  OperationTransform.transform op1 op2 true = Returns r
  /\ Operation.id r = Operation.id op1
  /\ Operation.author r = Operation.author op1
  /\ Operation.timestamp r = Operation.timestamp op1
  /\ Operation.fileId r = Operation.fileId op1.
Proof.
  split; [reflexivity|].
  apply (transform_frame (Insert "op1" "user1" "file1" 1000 "A")
           (Insert "op2" "user2" "file1" 1001 "B") true);
    reflexivity.
Defined.

(** C5.  Across documents [transform] returns its first operand as it is,
    whatever the priority. *)
Theorem transform_different_files (op1 op2 : Operation) (priority : bool) :
  Operation.fileId op1 <> Operation.fileId op2 ->
  OperationTransform.transform op1 op2 priority = Returns op1.
Proof. intros Hf. unfold OperationTransform.transform. by case_decide. Qed.

(** C5 (witness).  The transform of the test "should not transform
    operations on different files", under both priorities. *)
Lemma transform_different_files_witness :
  let op1 := Insert "op1" "user1" "file1" 1000 "A" in
  let op2 := Insert "op2" "user2" "file2" 1001 "B" in
  Operation.fileId op1 <> Operation.fileId op2
  /\ OperationTransform.transform op1 op2 false = Returns op1
  /\ OperationTransform.transform op1 op2 true = Returns op1.
Proof.
  assert (Hf : Operation.fileId (Insert "op1" "user1" "file1" 1000 "A")
               <> Operation.fileId (Insert "op2" "user2" "file2" 1001 "B"))
    by discriminate.
  split; [exact Hf|].
  split; apply transform_different_files; exact Hf.
Defined.

(** C1 (the code at the inputs of the claim).  With [opA] the insert of
    [" Beautiful"] by "a" and [opB] the insert of [" Amazing"] by "b", both
    at timestamp 1000 on one document: [transform(opA, opB, true)] is the
    insert of [" Beautiful Amazing"] (the two inserts of the script are
    merged), [transform(opB, opA, false)] is a retain of 10 (the first step
    of the script), and on ["Hello"] the order A', B' yields [" Beautiful"]
    while the order B', A' yields [" Beautiful Amazing"]. *)
Theorem transform_concurrent_inserts (idA idB fileId : string) :
  let opA := Insert idA "a" fileId 1000 " Beautiful" in
  let opB := Insert idB "b" fileId 1000 " Amazing" in
  let A' := Insert idA "a" fileId 1000 " Beautiful Amazing" in
  let B' := Retain idB "b" fileId 1000 10 in
  OperationTransform.transform opA opB true = Returns A'
  /\ OperationTransform.transform opB opA false = Returns B'
  /\ OperationTransform.applyOperation
       (OperationTransform.applyOperation "Hello" A') B'
     = " Beautiful"%string
  /\ OperationTransform.applyOperation
       (OperationTransform.applyOperation "Hello" B') A'
     = " Beautiful Amazing"%string
  /\ OperationTransform.applyOperation
       (OperationTransform.applyOperation "Hello" A') B'
     <> OperationTransform.applyOperation
          (OperationTransform.applyOperation "Hello" B') A'.
Proof.
  repeat split; try (by rewrite transform_same_file); try reflexivity.
  discriminate.
Qed.

(** C6 (the half that holds).  Across documents [compose] throws its
    error. *)
Lemma compose_different_files (op1 op2 : Operation) :
  Operation.fileId op1 <> Operation.fileId op2 ->
  OperationTransform.compose op1 op2
  = Throws (Error "Cannot compose operations on different files").
Proof. intros Hf. unfold OperationTransform.compose. by case_decide. Qed.

(** C2 (the code at a failing input).  [compose] walks a retain of 3 and a
    retain of 5 of one document in step, pushes what is left of the longer
    one once the shorter is used up, and compaction adds the two lengths:
    it returns a retain of 5.  Applied to ["Hello World"] the composed
    operation yields ["Hello"], where applying the first retain and then the
    second yields ["Hel"].  Two inserts likewise compose into the insert of
    the joined contents, which yields ["Hello World"] on the empty text
    where the sequence yields [" World"]; and a retain followed by a
    delete composes into the retain alone, the delete being the second step
    of the script, of which [textOpToOperation] keeps the first. *)
Theorem compose_breaks_sequence :
  let r3 := Retain "op1" "user1" "file1" 1000 3 in
  let r5 := Retain "op2" "user1" "file1" 1001 5 in
  let hello := Insert "op1" "user1" "file1" 1000 "Hello" in
  let world := Insert "op2" "user1" "file1" 1001 " World" in
  let r2 := Retain "op1" "user1" "file1" 1000 2 in
  let d3 := Delete "op2" "user1" "file1" 1001 3 in
  OperationTransform.isValidOperation r3 = true
  /\ OperationTransform.isValidOperation r5 = true
  /\ OperationTransform.compose r3 r5
     = Returns (Retain "op2" "user1" "file1" 1001 5)
  /\ OperationTransform.applyOperation "Hello World"
       (Retain "op2" "user1" "file1" 1001 5) = "Hello"%string
  /\ OperationTransform.applyOperation
       (OperationTransform.applyOperation "Hello World" r3) r5
     = "Hel"%string
  /\ OperationTransform.isValidOperation hello = true
  /\ OperationTransform.isValidOperation world = true
  /\ OperationTransform.compose hello world
     = Returns (Insert "op2" "user1" "file1" 1001 "Hello World")
  /\ OperationTransform.applyOperation EmptyString
       (Insert "op2" "user1" "file1" 1001 "Hello World")
     = "Hello World"%string
  /\ OperationTransform.applyOperation
       (OperationTransform.applyOperation EmptyString hello) world
     = " World"%string
  /\ OperationTransform.isValidOperation r2 = true
  /\ OperationTransform.isValidOperation d3 = true
  /\ OperationTransform.compose r2 d3
     = Returns (Retain "op2" "user1" "file1" 1001 2)
  /\ OperationTransform.applyOperation "Hello"
       (Retain "op2" "user1" "file1" 1001 2) = "He"%string
  /\ OperationTransform.applyOperation
       (OperationTransform.applyOperation "Hello" r2) d3
     = EmptyString.
Proof.
  repeat split; try (by rewrite compose_same_file); reflexivity.
Qed.

(** ** Operation history *)

Section History.
Import OperationHistory.

Lemma maxHistorySize_pos : (0 < maxHistorySize)%nat.
Proof. unfold maxHistorySize. lia. Qed.

Lemma trim_last_n (l : list Operation) (x : Operation) :
  trim (last_n maxHistorySize l ++ [x]) = last_n maxHistorySize (l ++ [x]).
Proof.
  pose proof maxHistorySize_pos as Hpos.
  unfold trim, last_n. generalize dependent maxHistorySize. intros n Hpos.
  rewrite !length_app, length_drop. simpl.
  destruct (Nat.ltb_spec n (List.length l - (List.length l - n) + 1)).
  - rewrite drop_app_le by (rewrite length_drop; lia).
    rewrite drop_drop. rewrite drop_app_le by lia.
    f_equal. f_equal. lia.
  - replace (List.length l - n)%nat with 0%nat by lia.
    replace (List.length l + 1 - n)%nat with 0%nat by lia. done.
Qed.

Lemma length_last_n {A : Type} (n : nat) (l : list A) :
  (List.length (last_n n l) <= n)%nat.
Proof. unfold last_n. rewrite length_drop. lia. Qed.

Lemma lookup_addOperation (fileId fileId' : string) (operation : Operation)
    (operations : t) :
  default [] (addOperation fileId' operation operations !! fileId)
  = if decide (fileId = fileId')
    then trim (default [] (operations !! fileId') ++ [operation])
    else default [] (operations !! fileId).
Proof.
  unfold addOperation.
  destruct (operations !! fileId') as [history|] eqn:Hh;
    case_decide; simplify_map_eq; done.
Qed.

Lemma run_snoc (calls : list (string * Operation)) (call : string * Operation) :
  run (calls ++ [call]) = addOperation call.1 call.2 (run calls).
Proof. unfold run. by rewrite fold_left_app. Qed.

Lemma appended_snoc (fileId : string) (calls : list (string * Operation))
    (call : string * Operation) :
  appended fileId (calls ++ [call])
  = appended fileId calls
    ++ (if decide (fileId = call.1) then [call.2] else []).
Proof.
  unfold appended. rewrite List.filter_app, map_app. simpl.
  case_bool_decide; case_decide; by simplify_eq.
Qed.

Lemma run_history (fileId : string) (calls : list (string * Operation)) :
  default [] (run calls !! fileId)
  = last_n maxHistorySize (appended fileId calls).
Proof.
  induction calls as [|call calls IH] using rev_ind; [done|].
  rewrite run_snoc, lookup_addOperation, appended_snoc.
  case_decide; subst.
  - by rewrite IH, trim_last_n.
  - by rewrite app_nil_r.
Qed.
End History.

(** C8.  After any sequence of [addOperation] calls on a fresh history, the
    history of every document holds at most 1000 operations, and they are
    the last 1000 (or all, when fewer) of the operations appended for that
    document, in append order: the oldest are dropped first. *)
Theorem history_bounded_fifo (calls : list (string * Operation))
    (fileId : string) :
  let history := OperationHistory.getOperations fileId Undefined (run calls) in
  (List.length history <= 1000)%nat
  /\ history = last_n 1000 (appended fileId calls)
  /\ (forall operation,
        (List.length (appended fileId calls) < 1000)%nat ->
        OperationHistory.getOperations fileId Undefined
          (run (calls ++ [(fileId, operation)]))
        = history ++ [operation])
  /\ (forall operation,
        (1000 <= List.length (appended fileId calls))%nat ->
        OperationHistory.getOperations fileId Undefined
          (run (calls ++ [(fileId, operation)]))
        = drop 1 history ++ [operation]).
Proof.
  unfold OperationHistory.getOperations. simpl.
  change 1000%nat with OperationHistory.maxHistorySize.
  rewrite run_history.
  pose proof maxHistorySize_pos as Hpos.
  pose proof run_history as Hrun.
  generalize dependent OperationHistory.maxHistorySize. intros n Hpos Hrun.
  split; [apply length_last_n|]. split; [done|].
  split; intros operation Hlen; rewrite Hrun, appended_snoc;
    (case_decide; [|done]); simpl; unfold last_n; rewrite length_app; simpl.
  - replace (List.length (appended fileId calls) + 1 - n)%nat with 0%nat by lia.
    by replace (List.length (appended fileId calls) - n)%nat with 0%nat by lia.
  - rewrite drop_drop, drop_app_le by lia. f_equal. f_equal. lia.
Qed.

(** C9 (counterexample).  An accepted operation with a negative timestamp
    is recorded; [getOperations(fileId, 0)] returns it, though its timestamp
    is not greater than [0]: a [since] of [0] is falsy and the filter is
    skipped. *)
Lemma since_zero_returns_older :
  let operation := Insert "op1" "user1" "file1" (-5) "A" in
  let operations :=
    OperationHistory.addOperation "file1" operation OperationHistory.new in
  OperationTransform.isValidOperation operation = true
  /\ OperationHistory.getOperations "file1" (Num 0) operations = [operation]
  /\ Operation.timestamp operation = Num (-5)
  /\ ~ (0 < -5).
Proof. repeat split; try reflexivity. lia. Qed.

(** A [since] of [0] is falsy: the filter is skipped and the whole history
    of the document comes back. *)
Lemma getOperations_zero (operations : OperationHistory.t) (fileId : string) :
  OperationHistory.getOperations fileId (Num 0) operations
  = default [] (operations !! fileId).
Proof. done. Qed.

(** C9 (amended).  For a timestamp [since] other than [0],
    [getOperations(fileId, since)] returns the recorded operations of the
    document whose timestamp is a number strictly greater than [since], in
    append order. *)
Theorem getOperations_since (operations : OperationHistory.t)
    (fileId : string) (since : Z) :
  since <> 0 ->
  let history := default [] (operations !! fileId) in
  let result := OperationHistory.getOperations fileId (Num since) operations in
  result = List.filter
             (fun operation =>
                match Operation.timestamp operation with
                | Num z => since <? z
                | _ => false
                end) history
  /\ sublist result history
  /\ forall operation,
       operation ∈ result <->
       operation ∈ history
       /\ exists z, Operation.timestamp operation = Num z /\ since < z.
Proof.
  intros Hsince.
  unfold OperationHistory.getOperations. simpl.
  rewrite (proj2 (Z.eqb_neq since 0)) by done. simpl.
  split; [done|]. split.
  - induction (default [] (operations !! fileId)) as [|x l IH]; simpl.
    + constructor.
    + case_match; by constructor.
  - intros operation. rewrite !list_elem_of_In, List.filter_In.
    unfold Js.gt. destruct (Operation.timestamp operation) as [| |z].
    + naive_solver.
    + naive_solver.
    + rewrite Z.ltb_lt. naive_solver.
Qed.

(** C9 (witness).  After appending operations with timestamps 1000 and
    2000, [getOperations(fileId, 1500)] returns the second only. *)
Lemma getOperations_since_witness :
  let op1 := Insert "op1" "user1" "file1" 1000 "A" in
  let op2 := Insert "op2" "user2" "file1" 2000 "B" in
  let operations := run [("file1"%string, op1); ("file1"%string, op2)] in
  1500 <> 0
  /\ OperationHistory.getOperations "file1" (Num 1500) operations = [op2].
Proof.
  split; [discriminate|].
  destruct (getOperations_since
              (run [("file1"%string, Insert "op1" "user1" "file1" 1000 "A");
                    ("file1"%string, Insert "op2" "user2" "file1" 2000 "B")])
              "file1" 1500 ltac:(discriminate)) as [-> _].
  reflexivity.
Defined.

(** * More of the engine *)

(** ** The transform table *)

Section Table.
Import OperationTransform.

Ltac rewrite_fields :=
  repeat match goal with
  | H : Operation.type _ = _ |- _ => rewrite H
  | H : Operation.length _ = _ |- _ => rewrite H
  | H : Operation.content _ = _ |- _ => rewrite H
  end.

Ltac transform_eval :=
  rewrite transform_same_file by done;
  unfold transformTextOperations, operationToTextOp;
  rewrite_fields;
  cbn -[Z.leb Z.ltb Z.sub Z.add Z.min Z.max Js.strlen Js.substring].

Ltac payload_eq :=
  lazy -[Z.add Z.sub Z.max Z.min Z.leb Z.ltb Js.strlen Js.substring
         String.append];
  repeat f_equal; try lia.

Lemma transform_insert_insert (op1 op2 : Operation) (c1 c2 : string) :
  Operation.fileId op1 = Operation.fileId op2 ->
  Operation.type op1 = Some insert -> Operation.content op1 = Some c1 ->
  Operation.type op2 = Some insert -> Operation.content op2 = Some c2 ->
  transform op1 op2 true
  = Returns (with_payload op1 insert Undefined (Some (String.append c1 c2)))
  /\ transform op1 op2 false
     = Returns (with_payload op1 retain (Num (Js.strlen c2)) None).
Proof. intros Hf Ht1 Hc1 Ht2 Hc2. split; by transform_eval. Qed.

Lemma transform_insert_other (op1 op2 : Operation) (priority : bool) :
  Operation.fileId op1 = Operation.fileId op2 ->
  Operation.type op1 = Some insert ->
  Operation.type op2 = Some retain \/ Operation.type op2 = Some delete ->
  transform op1 op2 priority
  = Returns (with_payload op1 insert Undefined (Operation.content op1)).
Proof. intros Hf Ht1 [Ht2 | Ht2]; by transform_eval. Qed.

Lemma transform_other_insert (op1 op2 : Operation) (priority : bool)
    (c2 : string) :
  Operation.fileId op1 = Operation.fileId op2 ->
  Operation.type op2 = Some insert -> Operation.content op2 = Some c2 ->
  (Operation.type op1 = Some retain ->
   transform op1 op2 priority
   = Returns (with_payload op1 retain
                (Num (Js.strlen c2 + Js.or_zero (Operation.length op1))) None))
  /\ (Operation.type op1 = Some delete ->
      transform op1 op2 priority
      = Returns (with_payload op1 retain (Num (Js.strlen c2)) None)).
Proof.
  intros Hf Ht2 Hc2. split; intros Ht1; by transform_eval.
Qed.

Lemma transform_other_retain (op1 op2 : Operation) (priority : bool)
    (a b : Z) :
  Operation.fileId op1 = Operation.fileId op2 ->
  Operation.length op1 = Num a -> 0 < a ->
  Operation.type op2 = Some retain -> Operation.length op2 = Num b -> 0 < b ->
  (Operation.type op1 = Some retain ->
   transform op1 op2 priority
   = Returns (with_payload op1 retain (Num (Z.max a b)) None))
  /\ (Operation.type op1 = Some delete ->
      transform op1 op2 priority
      = Returns (with_payload op1 delete (Num a) None)).
Proof.
  intros Hf Hl1 Ha Ht2 Hl2 Hb. split; intros Ht1; transform_eval.
  - destruct (Z.min_spec a b) as [[Hlt ->] | [Hle ->]];
      erewrite !shorten_num by done;
      repeat case_bool_decide; try lia; payload_eq.
  - destruct (Z.leb_spec a b);
      erewrite ?shorten_num by done;
      repeat case_bool_decide; try lia; payload_eq.
Qed.

Lemma transform_other_delete (op1 op2 : Operation) (priority : bool)
    (kind : OpType) (a b : Z) :
  Operation.fileId op1 = Operation.fileId op2 ->
  Operation.type op1 = Some kind -> kind <> insert ->
  Operation.length op1 = Num a -> 0 < a ->
  Operation.type op2 = Some delete -> Operation.length op2 = Num b -> 0 < b ->
  (a < b ->
   transform op1 op2 priority
   = Returns (with_payload op1 delete (Num (b - a)) None))
  /\ (a = b -> transform op1 op2 priority = Throws TypeError)
  /\ (b < a ->
      transform op1 op2 priority
      = Returns (with_payload op1 kind (Num (a - b)) None)).
Proof.
  intros Hf Ht1 Hkind Hl1 Ha Ht2 Hl2 Hb.
  destruct kind; [|done|]; repeat split; intros Hab; transform_eval;
    try destruct (Z.min_spec a b) as [[? ->] | [? ->]];
    try destruct (Z.leb_spec a b); try lia;
    erewrite ?shorten_num by done;
    repeat case_bool_decide; try lia; done.
Qed.

Lemma valid_with_payload (op : Operation) (type : OpType) (length : jsnum)
    (content : option string) :
  isValidOperation op = true ->
  well_typed (with_payload op type length content) ->
  isValidOperation (with_payload op type length content) = true.
Proof.
  rewrite !isValidOperation_cases. simpl. tauto.
Qed.

Lemma well_typed_insert (op : Operation) (c : string) :
  c <> EmptyString -> well_typed (with_payload op insert Undefined (Some c)).
Proof. intros Hc. left. split; [done|]. by exists c. Qed.

Lemma well_typed_length (op : Operation) (kind : OpType) (n : Z) :
  kind <> insert -> 0 < n -> well_typed (with_payload op kind (Num n) None).
Proof.
  intros Hk Hn. right. split; [destruct kind; simpl; auto; done|]. by exists n.
Qed.

Lemma append_nonempty (s1 s2 : string) :
  s1 <> EmptyString -> String.append s1 s2 <> EmptyString.
Proof. by destruct s1. Qed.

(** What [transform] returns on accepted operations is accepted. *)
Lemma transform_valid_result (op1 op2 r : Operation) (priority : bool) :
  isValidOperation op1 = true -> isValidOperation op2 = true ->
  transform op1 op2 priority = Returns r ->
  isValidOperation r = true.
Proof.
  intros Hv1 Hv2.
  destruct (decide (Operation.fileId op1 = Operation.fileId op2)) as [Hf|Hf];
    [|unfold transform; case_decide; [congruence | done]].
  pose proof (valid_well_typed _ Hv1) as Hw1.
  pose proof (valid_well_typed _ Hv2) as Hw2.
  destruct Hw1 as [[Ht1 (c1 & Hc1 & Hne1)] | [Ht1 (a & Hl1 & Ha)]];
    destruct Hw2 as [[Ht2 (c2 & Hc2 & Hne2)] | [Ht2 (b & Hl2 & Hb)]].
  - destruct (transform_insert_insert op1 op2 c1 c2) as [Ht Hfalse];
      try done.
    destruct priority; [rewrite Ht | rewrite Hfalse]; intros [= <-];
      apply valid_with_payload; try done.
    + by apply well_typed_insert, append_nonempty.
    + apply well_typed_length; [done|]. by apply strlen_pos_nonempty.
  - rewrite transform_insert_other by (done || tauto). intros [= <-].
    apply valid_with_payload; [done|]. rewrite Hc1. by apply well_typed_insert.
  - destruct (transform_other_insert op1 op2 priority c2) as [Hr Hd];
      try done.
    destruct Ht1 as [Ht1 | Ht1]; [rewrite Hd | rewrite Hr]; try done;
      intros [= <-]; apply valid_with_payload; try done;
      apply well_typed_length; try done; rewrite ?Hl1; simpl;
      apply strlen_pos_nonempty in Hne2; lia.
  - destruct Ht2 as [Ht2 | Ht2].
    + assert (exists kind, Operation.type op1 = Some kind /\ kind <> insert)
        as (kind & Hk & Hki) by (destruct Ht1; eauto).
      destruct (transform_other_delete op1 op2 priority kind a b)
        as (Hlt & Heq & Hgt); try done.
      destruct (Z.lt_total a b) as [? | [? | ?]];
        [rewrite Hlt | rewrite Heq | rewrite Hgt]; try done;
        intros [= <-]; apply valid_with_payload; try done;
        apply well_typed_length; try done; lia.
    + destruct (transform_other_retain op1 op2 priority a b) as [Hr Hd];
        try done.
      destruct Ht1 as [Ht1 | Ht1]; [rewrite Hd | rewrite Hr]; try done;
        intros [= <-]; apply valid_with_payload; try done;
        apply well_typed_length; try done; lia.
Qed.

Lemma transform_returns_frame (op1 op2 r : Operation) (priority : bool) :
  transform op1 op2 priority = Returns r ->
  Operation.id r = Operation.id op1
  /\ Operation.author r = Operation.author op1
  /\ Operation.timestamp r = Operation.timestamp op1
  /\ Operation.fileId r = Operation.fileId op1.
Proof.
  unfold transform. case_decide; [by intros [= <-]|].
  destruct (transformTextOperations _ _ _) as [t| |]; simpl; try done.
  apply textOpToOperation_frame.
Qed.
End Table.

Section Resolver.
Import OperationTransform ConflictResolver.

Lemma resolve_loop_frame (newOperation : Operation)
    (existingOperations : list Operation) (transformedOp r : Operation) :
  resolve_loop newOperation existingOperations transformedOp = Returns r ->
  Operation.id r = Operation.id transformedOp
  /\ Operation.author r = Operation.author transformedOp
  /\ Operation.timestamp r = Operation.timestamp transformedOp
  /\ Operation.fileId r = Operation.fileId transformedOp.
Proof.
  revert transformedOp.
  induction existingOperations as [|existingOp rest IH]; intros t; simpl.
  - by intros [= <-].
  - case_match.
    + destruct (transform t existingOp _) as [t'| |] eqn:Ht; simpl; try done.
      intros Hr. apply IH in Hr. apply transform_returns_frame in Ht.
      intuition congruence.
    + simpl. apply IH.
Qed.

Lemma resolve_loop_relevant (newOperation : Operation)
    (existingOperations : list Operation) (transformedOp : Operation) :
  Operation.fileId transformedOp = Operation.fileId newOperation ->
  resolve_loop newOperation existingOperations transformedOp
  = resolve_loop newOperation
      (List.filter (relevant newOperation) existingOperations) transformedOp.
Proof.
  revert transformedOp.
  induction existingOperations as [|existingOp rest IH]; intros t Hf;
    [done|].
  simpl. unfold relevant at 1.
  destruct (concurrent newOperation existingOp) eqn:Hc; simpl.
  - case_bool_decide as Hfile; simpl.
    + rewrite Hc.
      destruct (transform t existingOp _) as [t'| |] eqn:Ht; simpl; try done.
      apply IH. apply transform_returns_frame in Ht. intuition congruence.
    + unfold transform. case_decide; [simpl; by apply IH | congruence].
  - by apply IH.
Qed.

Lemma resolve_loop_valid (newOperation : Operation)
    (existingOperations : list Operation) (transformedOp : Operation) :
  Forall (fun op => isValidOperation op = true) existingOperations ->
  isValidOperation transformedOp = true ->
  resolve_loop newOperation existingOperations transformedOp <> Diverges
  /\ forall r,
       resolve_loop newOperation existingOperations transformedOp = Returns r ->
       isValidOperation r = true.
Proof.
  intros Hall. revert transformedOp.
  induction Hall as [|existingOp rest Hv Hrest IH]; intros t Ht; simpl.
  - split; [done|]. by intros r [= <-].
  - case_match; simpl; [|by apply IH].
    pose proof (transform_valid_ends t existingOp
                  (author_gt (Operation.author newOperation)
                             (Operation.author existingOp)) Ht Hv) as Hend.
    destruct (transform t existingOp _) as [t'| |] eqn:Htr; simpl; try done.
    apply IH. exact (transform_valid_result _ _ _ _ Ht Hv Htr).
Qed.

Lemma author_gt_antisym (a b : string) :
  a <> b ->
  author_gt (Some a) (Some b) = negb (author_gt (Some b) (Some a)).
Proof.
  intros Hab. simpl. rewrite (String.compare_antisym b a).
  destruct (String.compare a b) eqn:Hcmp; simpl; try done.
  by apply String.compare_eq_iff in Hcmp.
Qed.
End Resolver.

(** ** Compaction *)

Section Compaction.
Import OperationTransform.

Lemma compact_step_nil (op : Step) : compact_step [] op = [op].
Proof. done. Qed.

Lemma compact_step_snoc (compacted : list Step) (lastOp op : Step) :
  compact_step (compacted ++ [lastOp]) op
  = if decide (Step.type lastOp = Step.type op)
    then compacted ++ [merged lastOp op]
    else compacted ++ [lastOp; op].
Proof.
  unfold compact_step. rewrite last_snoc. case_decide.
  - rewrite length_app. simpl.
    replace (pred (List.length compacted + 1)) with
      (List.length compacted + 0)%nat by lia.
    by rewrite insert_app_r.
  - by rewrite <- app_assoc.
Qed.

Lemma compact_snoc (script : list Step) (op : Step) :
  fold_left compact_step (script ++ [op]) []
  = compact_step (fold_left compact_step script []) op.
Proof. by rewrite fold_left_app. Qed.

Lemma merged_type (lastOp op : Step) :
  Step.type (merged lastOp op) = Step.type lastOp.
Proof. unfold merged. by destruct (Step.type op). Qed.

Lemma no_adjacent_snoc (script : list Step) (x y : Step) :
  no_adjacent (script ++ [x; y])
  <-> no_adjacent (script ++ [x]) /\ Step.type x <> Step.type y.
Proof.
  induction script as [|a [|b script] IH]; simpl in *; tauto.
Qed.

Lemma no_adjacent_last (script : list Step) (x x' : Step) :
  Step.type x = Step.type x' ->
  no_adjacent (script ++ [x]) -> no_adjacent (script ++ [x']).
Proof.
  intros Hty. induction script as [|a [|b script] IH]; simpl in *;
    [done | rewrite Hty; tauto | tauto].
Qed.

Lemma no_adjacent_init (script : list Step) (x : Step) :
  no_adjacent (script ++ [x]) -> no_adjacent script.
Proof.
  induction script as [|a [|b script] IH]; simpl in *; tauto.
Qed.

Lemma compact_step_no_adjacent (compacted : list Step) (op : Step) :
  no_adjacent compacted -> no_adjacent (compact_step compacted op).
Proof.
  destruct compacted as [|x l _] using rev_ind; [done|].
  rewrite compact_step_snoc. intros Hno. case_decide.
  - eapply no_adjacent_last; [|done]. by rewrite merged_type.
  - by apply no_adjacent_snoc.
Qed.

Lemma compact_no_adjacent (script : list Step) :
  no_adjacent (fold_left compact_step script []).
Proof.
  induction script as [|op script IH] using rev_ind; [done|].
  rewrite compact_snoc. by apply compact_step_no_adjacent.
Qed.

Lemma compact_fixed (script : list Step) :
  no_adjacent script -> fold_left compact_step script [] = script.
Proof.
  induction script as [|op script IH] using rev_ind; [done|].
  intros Hno. rewrite compact_snoc, IH by (by eapply no_adjacent_init).
  destruct script as [|x l _] using rev_ind; [done|].
  rewrite compact_step_snoc. rewrite <- app_assoc in Hno. simpl in Hno.
  apply no_adjacent_snoc in Hno as [_ Hne].
  case_decide; [done|]. by rewrite <- app_assoc.
Qed.

Lemma append_assoc (s1 s2 s3 : string) :
  String.append (String.append s1 s2) s3
  = String.append s1 (String.append s2 s3).
Proof.
  induction s1 as [|c s1 IH]; [done|].
  change (String c (String.append (String.append s1 s2) s3)
          = String c (String.append s1 (String.append s2 s3))).
  by f_equal.
Qed.

Lemma substring_nothing (n : nat) (s : string) :
  String.substring n 0 s = EmptyString.
Proof. revert n. induction s as [|c s IH]; intros [|n]; simpl; auto. Qed.

Lemma substring_concat (n a b : nat) (s : string) :
  String.append (String.substring n a s) (String.substring (n + a) b s)
  = String.substring n (a + b) s.
Proof.
  revert n a. induction s as [|c s IH]; intros n a.
  - by rewrite !substring_empty.
  - destruct n as [|n]; simpl.
    + destruct a as [|a]; simpl; [done|].
      change (String c (String.append (String.substring 0 a s)
                                      (String.substring (0 + a) b s))
              = String c (String.substring 0 (a + b) s)).
      f_equal. apply IH.
    + apply IH.
Qed.

(** Two neighbouring ranges of a text make one. *)
Lemma js_substring_concat (text : string) (i a b : Z) :
  0 <= i -> 0 <= a -> 0 <= b ->
  String.append (Js.substring text (Num i) (Num (i + a)))
                (Js.substring text (Num (i + a)) (Num (i + a + b)))
  = Js.substring text (Num i) (Num (i + (a + b))).
Proof.
  intros Hi Ha Hb. unfold Js.substring, Js.clamp.
  pose proof (strlen_nonneg text) as Hlen.
  set (len := Js.strlen text) in *.
  set (n1 := Z.min (Z.max i 0) len).
  set (n2 := Z.min (Z.max (i + a) 0) len).
  set (n3 := Z.min (Z.max (i + a + b) 0) len).
  replace (Z.min (Z.max (i + (a + b)) 0) len) with n3 by (subst n3; lia).
  replace (Z.min n1 n2) with n1 by lia.
  replace (Z.max n1 n2 - n1) with (n2 - n1) by lia.
  replace (Z.min n2 n3) with n2 by lia.
  replace (Z.max n2 n3 - n2) with (n3 - n2) by lia.
  replace (Z.min n1 n3) with n1 by lia.
  replace (Z.max n1 n3 - n1) with (n3 - n1) by lia.
  replace (Z.to_nat n2) with (Z.to_nat n1 + Z.to_nat (n2 - n1))%nat by lia.
  replace (Z.to_nat (n3 - n1))
    with (Z.to_nat (n2 - n1) + Z.to_nat (n3 - n2))%nat by lia.
  apply substring_concat.
Qed.

Lemma walk_snoc (text : string) (script : list Step) (op : Step) :
  walk text (script ++ [op]) = apply_step text (walk text script) op.
Proof. unfold walk. by rewrite fold_left_app. Qed.

Lemma walk_apply (text : string) (textOp : TextOperation) :
  applyTextOperation text textOp = (walk text (ops textOp)).1.
Proof. done. Qed.

(** A walk over walkable steps keeps its index a number, never negative. *)
Lemma walk_index (text : string) (script : list Step) :
  Forall walkable script ->
  exists i, (walk text script).2 = Num i /\ 0 <= i.
Proof.
  induction script as [|op script IH] using rev_ind; intros Hall.
  - exists 0. by split.
  - apply Forall_app in Hall as [Hscript Hop].
    rewrite Forall_singleton in Hop.
    destruct (IH Hscript) as (i & Hi & Hpos).
    rewrite walk_snoc. destruct (walk text script) as [r idx].
    simpl in Hi. subst idx. unfold apply_step, walkable in *.
    destruct (Step.type op).
    + destruct Hop as (n & -> & Hn). exists (i + n). simpl. split; [done|lia].
    + by exists i.
    + destruct Hop as (n & -> & Hn). exists (i + n). simpl. split; [done|lia].
Qed.

Lemma merged_walkable (lastOp op : Step) :
  Step.type lastOp = Step.type op ->
  walkable lastOp -> walkable op -> walkable (merged lastOp op).
Proof.
  unfold walkable, merged. intros Hty. rewrite Hty.
  destruct (Step.type op) eqn:Hk; simpl; rewrite ?Hty; try done.
  - intros (n & -> & Hn) (m & -> & Hm). exists (n + m). simpl. split; [done|lia].
  - intros (n & -> & Hn) (m & -> & Hm). exists (n + m). simpl. split; [done|lia].
Qed.

Lemma compact_walkable (script : list Step) :
  Forall walkable script -> Forall walkable (fold_left compact_step script []).
Proof.
  induction script as [|op script IH] using rev_ind; intros Hall; [done|].
  apply Forall_app in Hall as [Hscript Hop]. rewrite Forall_singleton in Hop.
  rewrite compact_snoc. specialize (IH Hscript).
  destruct (fold_left compact_step script []) as [|x l _] using rev_ind.
  - by apply Forall_singleton.
  - rewrite compact_step_snoc.
    apply Forall_app in IH as [Hl Hx]. rewrite Forall_singleton in Hx.
    case_decide.
    + apply Forall_app. split; [done|].
      by apply Forall_singleton, merged_walkable.
    + apply Forall_app. split; [done|]. by repeat constructor.
Qed.

(** Walking the merged step is walking the two. *)
Lemma apply_step_merged (text : string) (r : string) (i : Z)
    (lastOp op : Step) :
  0 <= i ->
  Step.type lastOp = Step.type op ->
  walkable lastOp -> walkable op ->
  apply_step text (r, Num i) (merged lastOp op)
  = apply_step text (apply_step text (r, Num i) lastOp) op.
Proof.
  intros Hi Hty. unfold walkable, merged, apply_step. rewrite Hty.
  destruct (Step.type op) eqn:Hk; simpl; rewrite ?Hty.
  - intros (n & -> & Hn) (m & -> & Hm). simpl.
    rewrite append_assoc, js_substring_concat by done.
    by rewrite Z.add_assoc.
  - intros [s ->] [t ->]. simpl. by rewrite append_assoc.
  - intros (n & -> & Hn) (m & -> & Hm). simpl. by rewrite Z.add_assoc.
Qed.

Lemma compact_walk (text : string) (script : list Step) :
  Forall walkable script ->
  walk text (fold_left compact_step script []) = walk text script.
Proof.
  induction script as [|op script IH] using rev_ind; intros Hall; [done|].
  apply Forall_app in Hall as [Hscript Hop]. rewrite Forall_singleton in Hop.
  rewrite compact_snoc, walk_snoc, <- (IH Hscript).
  pose proof (compact_walkable script Hscript) as Hc.
  destruct (fold_left compact_step script []) as [|x l _] using rev_ind;
    [done|].
  rewrite compact_step_snoc.
  apply Forall_app in Hc as [Hl Hx]. rewrite Forall_singleton in Hx.
  case_decide.
  - rewrite !walk_snoc.
    destruct (walk_index text l Hl) as (i & Hi & Hpos).
    destruct (walk text l) as [r idx]. simpl in Hi. subst idx.
    by apply apply_step_merged.
  - replace (l ++ [x; op]) with ((l ++ [x]) ++ [op]) by by rewrite <- app_assoc.
    by rewrite walk_snoc.
Qed.
End Compaction.

Section Walks.
Import OperationTransform.

Lemma strlen_js_substring (text : string) (i n : Z) :
  0 <= i -> 0 <= n ->
  Js.strlen (Js.substring text (Num i) (Num (i + n)))
  = Z.min (i + n) (Js.strlen text) - Z.min i (Js.strlen text).
Proof.
  intros Hi Hn. unfold Js.substring, Js.clamp.
  unfold Js.strlen. rewrite length_substring. lia.
Qed.

Lemma inserted_snoc (script : list Step) (op : Step) :
  inserted (script ++ [op])
  = inserted script
    + match Step.type op with
      | insert => Js.strlen (Js.to_string (Step.content op))
      | _ => 0
      end.
Proof.
  unfold inserted. induction script as [|x script IH]; simpl.
  - destruct (Step.type op); lia.
  - rewrite IH. destruct (Step.type x); lia.
Qed.

Lemma walk_bound (text : string) (script : list Step) :
  Forall walkable script ->
  exists i, (walk text script).2 = Num i /\ 0 <= i
            /\ Js.strlen (walk text script).1
               <= Z.min i (Js.strlen text) + inserted script.
Proof.
  induction script as [|op script IH] using rev_ind; intros Hall.
  - exists 0. repeat split; try done. pose proof (strlen_nonneg text).
    change (Js.strlen (walk text []).1) with 0.
    change (inserted []) with 0. lia.
  - apply Forall_app in Hall as [Hscript Hop].
    rewrite Forall_singleton in Hop.
    destruct (IH Hscript) as (i & Hi & Hpos & Hlen).
    rewrite walk_snoc, inserted_snoc.
    destruct (walk text script) as [r idx]. simpl in Hi, Hlen. subst idx.
    unfold apply_step, walkable in *.
    pose proof (strlen_nonneg text).
    destruct (Step.type op).
    + destruct Hop as (n & -> & Hn). exists (i + n). simpl.
      repeat split; [lia|].
      rewrite strlen_append, strlen_js_substring by done. lia.
    + destruct Hop as [c ->]. exists i. simpl.
      repeat split; [done|]. rewrite strlen_append. lia.
    + destruct Hop as (n & -> & Hn). exists (i + n). simpl.
      repeat split; [lia|]. lia.
Qed.

Lemma js_substring_to_end (text : string) (i j : Z) :
  0 <= i -> Js.strlen text <= j ->
  Js.substring text (Num i) (Num j) = Js.substring text (Num i) Undefined.
Proof.
  intros Hi Hj. unfold Js.substring, Js.clamp.
  pose proof (strlen_nonneg text).
  replace (Z.min (Z.max j 0) (Js.strlen text)) with (Js.strlen text) by lia.
  done.
Qed.
End Walks.

(** ** Transform on accepted operations *)

Lemma well_typed_length_pos (op : Operation) (n : Z) :
  well_typed op -> Operation.type op <> Some insert ->
  Operation.length op = Num n -> 0 < n.
Proof.
  intros [[? _] | [_ (m & Hm & Hpos)]] Hty Hn; [done|]. congruence.
Qed.

(** X1.  On accepted operations whose lengths are integers, of one document
    or of two, [transform] ends, and the operation it returns is accepted in
    its turn.  (A length of [Infinity] is accepted too and is left out: two
    retains of it never leave the loop.) *)
Theorem transform_keeps_accepted (op1 op2 : Operation) (priority : bool) :
  OperationTransform.isValidOperation op1 = true ->
  OperationTransform.isValidOperation op2 = true ->
  integral op1 -> integral op2 ->
  OperationTransform.transform op1 op2 priority <> Diverges
  /\ forall r,
       OperationTransform.transform op1 op2 priority = Returns r ->
       OperationTransform.isValidOperation r = true.
Proof.
  intros Hv1 Hv2 _ _. split.
  - by apply transform_valid_ends.
  - intros r. by apply transform_valid_result.
Qed.

Lemma transform_keeps_accepted_witness :
  let op1 := Retain "op1" "user1" "file1" 1000 2 in
  let op2 := Delete "op2" "user2" "file1" 1001 5 in
  OperationTransform.transform op1 op2 false
  = Returns (Delete "op1" "user1" "file1" 1000 3)
  /\ OperationTransform.isValidOperation
       (Delete "op1" "user1" "file1" 1000 3) = true.
Proof.
  split; [reflexivity|].
  apply (transform_keeps_accepted (Retain "op1" "user1" "file1" 1000 2)
           (Delete "op2" "user2" "file1" 1001 5) false);
    first [reflexivity | intros _; by eexists].
Defined.

(** X2 (witness).  A delete of 3 against a delete of 3 throws; an insert
    against it returns. *)
Lemma transform_valid_outcome_witness :
  OperationTransform.transform (Delete "op1" "user1" "file1" 1000 3)
    (Delete "op2" "user2" "file1" 1001 3) false = Throws TypeError
  /\ exists r,
       OperationTransform.transform (Insert "op1" "user1" "file1" 1000 "A")
         (Delete "op2" "user2" "file1" 1001 3) false = Returns r.
Proof.
  split.
  - destruct (transform_valid_outcome (Delete "op1" "user1" "file1" 1000 3)
                (Delete "op2" "user2" "file1" 1001 3) false
                eq_refl eq_refl
                (fun _ => ex_intro _ 3 eq_refl)
                (fun _ => ex_intro _ 3 eq_refl) eq_refl)
      as [[_ Hthrows] | [Hnot _]]; [exact Hthrows|].
    destruct Hnot. repeat split; discriminate || reflexivity.
  - destruct (transform_valid_outcome (Insert "op1" "user1" "file1" 1000 "A")
                (Delete "op2" "user2" "file1" 1001 3) false
                eq_refl eq_refl
                (fun Hkind => match Hkind eq_refl with end)
                (fun _ => ex_intro _ 3 eq_refl) eq_refl)
      as [[(Hins & _) _] | [_ Hr]]; [|exact Hr].
    by destruct Hins.
Defined.

(** X3.  An accepted insert transformed against an accepted operation of
    the same document: against a retain or a delete it comes back with its
    content; against an insert it comes back with the two contents joined
    when it has priority, and as a retain of the other content's length when
    it has not. *)
Theorem transform_insert_first (op1 op2 : Operation) (c1 : string) :
  OperationTransform.isValidOperation op1 = true ->
  OperationTransform.isValidOperation op2 = true ->
  Operation.fileId op1 = Operation.fileId op2 ->
  Operation.type op1 = Some insert ->
  Operation.content op1 = Some c1 ->
  (Operation.type op2 <> Some insert ->
   forall priority,
     OperationTransform.transform op1 op2 priority
     = Returns (with_payload op1 insert Undefined (Some c1)))
  /\ (forall c2,
        Operation.type op2 = Some insert ->
        Operation.content op2 = Some c2 ->
        OperationTransform.transform op1 op2 true
        = Returns (with_payload op1 insert Undefined
                     (Some (String.append c1 c2)))
        /\ OperationTransform.transform op1 op2 false
           = Returns (with_payload op1 retain (Num (Js.strlen c2)) None)).
Proof.
  intros _ Hv2%valid_well_typed Hf Ht1 Hc1. split.
  - intros Hnot priority. rewrite <- Hc1.
    apply transform_insert_other; try done.
    destruct Hv2 as [[? _] | [? _]]; [done | tauto].
  - intros c2 Ht2 Hc2. by apply transform_insert_insert.
Qed.

Lemma transform_insert_first_witness :
  let op1 := Insert "op1" "user1" "file1" 1000 "Hello" in
  let op2 := Delete "op2" "user2" "file1" 1001 3 in
  OperationTransform.transform op1 op2 true = Returns op1
  /\ OperationTransform.transform op1 op2 false = Returns op1.
Proof.
  destruct (transform_insert_first
              (Insert "op1" "user1" "file1" 1000 "Hello")
              (Delete "op2" "user2" "file1" 1001 3) "Hello"
              eq_refl eq_refl eq_refl eq_refl eq_refl) as [Hother _].
  split; apply Hother; discriminate.
Defined.

(** X4.  Against an accepted insert of the same document, an accepted
    retain of an integer length comes back longer by the inserted content,
    as long as the sum is at most [2^53] and so is not rounded, and an
    accepted delete of an integer length comes back as a retain of the
    inserted content's length. *)
Theorem transform_against_insert (op1 op2 : Operation) (priority : bool)
    (c2 : string) (a : Z) :
  OperationTransform.isValidOperation op1 = true ->
  OperationTransform.isValidOperation op2 = true ->
  Operation.fileId op1 = Operation.fileId op2 ->
  Operation.type op2 = Some insert ->
  Operation.content op2 = Some c2 ->
  Operation.length op1 = Num a ->
  (Operation.type op1 = Some retain ->
   Js.strlen c2 + a <= 2 ^ 53 ->
   OperationTransform.transform op1 op2 priority
   = Returns (with_payload op1 retain (Num (Js.strlen c2 + a)) None))
  /\ (Operation.type op1 = Some delete ->
      OperationTransform.transform op1 op2 priority
      = Returns (with_payload op1 retain (Num (Js.strlen c2)) None)).
Proof.
  intros _ _ Hf Ht2 Hc2 Hl1.
  destruct (transform_other_insert op1 op2 priority c2 Hf Ht2 Hc2)
    as [Hr Hd].
  rewrite Hl1 in Hr. split; [|done]. intros Ht1 _. by apply Hr.
Qed.

Lemma transform_against_insert_witness :
  OperationTransform.transform (Retain "op1" "user1" "file1" 1000 4)
    (Insert "op2" "user2" "file1" 1001 "Hello") false
  = Returns (Retain "op1" "user1" "file1" 1000 9)
  /\ OperationTransform.transform (Delete "op1" "user1" "file1" 1000 4)
       (Insert "op2" "user2" "file1" 1001 "Hello") false
     = Returns (Retain "op1" "user1" "file1" 1000 5).
Proof.
  split.
  - destruct (transform_against_insert
                (Retain "op1" "user1" "file1" 1000 4)
                (Insert "op2" "user2" "file1" 1001 "Hello") false "Hello" 4
                eq_refl eq_refl eq_refl eq_refl eq_refl eq_refl)
      as [Hretain _].
    apply Hretain; [reflexivity|]. vm_compute. discriminate.
  - destruct (transform_against_insert
                (Delete "op1" "user1" "file1" 1000 4)
                (Insert "op2" "user2" "file1" 1001 "Hello") false "Hello" 4
                eq_refl eq_refl eq_refl eq_refl eq_refl eq_refl)
      as [_ Hdelete].
    by apply Hdelete.
Defined.

(** X5.  Against an accepted retain of the same document, both lengths
    being integers of at most [2^53], an accepted retain comes back with the
    longer of the two lengths, and an accepted delete comes back as it
    is. *)
Theorem transform_against_retain (op1 op2 : Operation) (priority : bool)
    (a b : Z) :
  OperationTransform.isValidOperation op1 = true ->
  OperationTransform.isValidOperation op2 = true ->
  Operation.fileId op1 = Operation.fileId op2 ->
  Operation.type op2 = Some retain ->
  Operation.length op1 = Num a ->
  Operation.length op2 = Num b ->
  a <= 2 ^ 53 -> b <= 2 ^ 53 ->
  (Operation.type op1 = Some retain ->
   OperationTransform.transform op1 op2 priority
   = Returns (with_payload op1 retain (Num (Z.max a b)) None))
  /\ (Operation.type op1 = Some delete ->
      OperationTransform.transform op1 op2 priority
      = Returns (with_payload op1 delete (Num a) None)).
Proof.
  intros Hv1%valid_well_typed Hv2%valid_well_typed Hf Ht2 Hl1 Hl2 _ _.
  assert (0 < b) by (apply (well_typed_length_pos op2); congruence).
  split; intros Ht1;
    (assert (0 < a) by (apply (well_typed_length_pos op1); congruence));
    by apply (transform_other_retain op1 op2 priority a b).
Qed.

Lemma transform_against_retain_witness :
  OperationTransform.transform (Retain "op1" "user1" "file1" 1000 2)
    (Retain "op2" "user2" "file1" 1001 7) false
  = Returns (Retain "op1" "user1" "file1" 1000 7).
Proof.
  apply (transform_against_retain (Retain "op1" "user1" "file1" 1000 2)
           (Retain "op2" "user2" "file1" 1001 7) false 2 7);
    first [reflexivity | vm_compute; discriminate].
Defined.

(** X6.  Against an accepted delete of the same document, both lengths
    being integers of at most [2^53], an accepted retain or delete of a
    shorter length comes back as a delete of what the other delete has left,
    and one of a longer length comes back with its kind and the difference
    of the lengths. *)
Theorem transform_against_delete (op1 op2 : Operation) (priority : bool)
    (kind : OpType) (a b : Z) :
  OperationTransform.isValidOperation op1 = true ->
  OperationTransform.isValidOperation op2 = true ->
  Operation.fileId op1 = Operation.fileId op2 ->
  Operation.type op1 = Some kind -> kind <> insert ->
  Operation.type op2 = Some delete ->
  Operation.length op1 = Num a ->
  Operation.length op2 = Num b ->
  a <= 2 ^ 53 -> b <= 2 ^ 53 ->
  (a < b ->
   OperationTransform.transform op1 op2 priority
   = Returns (with_payload op1 delete (Num (b - a)) None))
  /\ (b < a ->
      OperationTransform.transform op1 op2 priority
      = Returns (with_payload op1 kind (Num (a - b)) None)).
Proof.
  intros Hv1%valid_well_typed Hv2%valid_well_typed Hf Ht1 Hk Ht2 Hl1 Hl2 _ _.
  assert (0 < a) by (apply (well_typed_length_pos op1); congruence).
  assert (0 < b) by (apply (well_typed_length_pos op2); congruence).
  destruct (transform_other_delete op1 op2 priority kind a b)
    as (Hlt & _ & Hgt); done.
Qed.

Lemma transform_against_delete_witness :
  OperationTransform.transform (Retain "op1" "user1" "file1" 1000 7)
    (Delete "op2" "user2" "file1" 1001 3) false
  = Returns (Retain "op1" "user1" "file1" 1000 4).
Proof.
  apply (transform_against_delete (Retain "op1" "user1" "file1" 1000 7)
           (Delete "op2" "user2" "file1" 1001 3) false retain 7 3);
    first [reflexivity | discriminate | vm_compute; discriminate].
Defined.

(** ** Malformed operations *)

(** X7.  Two retains, or two deletes, of one document, one of them with a
    length that is not a number: the loop of [transformTextOperations]
    never ends, whatever the number of turns it is given, and [transform]
    does not return. *)
Theorem transform_not_a_number_loops (op1 op2 : Operation) (priority : bool)
    (kind : OpType) :
  Operation.fileId op1 = Operation.fileId op2 ->
  Operation.type op1 = Some kind ->
  Operation.type op2 = Some kind ->
  kind <> insert ->
  Js.min (Operation.length op1) (Operation.length op2) = NaN ->
  (forall fuel,
     while fuel (OperationTransform.transform_turn priority)
       (ops (OperationTransform.operationToTextOp op1),
        ops (OperationTransform.operationToTextOp op2), [])
     = Diverges)
  /\ OperationTransform.transform op1 op2 priority = Diverges.
Proof.
  intros Hf Ht1 Ht2 Hk Hmin.
  assert (Hloop : forall fuel,
    while fuel (OperationTransform.transform_turn priority)
      (ops (OperationTransform.operationToTextOp op1),
       ops (OperationTransform.operationToTextOp op2), [])
    = Diverges).
  { intros fuel.
    apply (stuck_diverges _ stuck (transform_stuck_stays priority)).
    unfold OperationTransform.operationToTextOp. rewrite Ht1, Ht2.
    destruct kind; [left| done |right];
      by eexists _, [], _, []. }
  split; [done|].
  rewrite transform_same_file by done.
  unfold OperationTransform.transformTextOperations. by rewrite Hloop.
Qed.

Lemma transform_not_a_number_loops_witness :
  let op1 :=
    Operation.mk (Some "op1") (Some retain) Undefined None
                 (Some "user1") (Num 1000) (Some "file1") in
  let op2 := Retain "op2" "user2" "file1" 1001 3 in
  OperationTransform.transform op1 op2 false = Diverges.
Proof.
  apply (transform_not_a_number_loops
           (Operation.mk (Some "op1") (Some retain) Undefined None
                         (Some "user1") (Num 1000) (Some "file1"))
           (Retain "op2" "user2" "file1" 1001 3) false retain);
    reflexivity || discriminate.
Defined.

(** X8.  An operation whose [type] is not recognised has an empty script:
    transformed against an operation of the same document it comes back
    carrying the payload of that operation, and against another
    unrecognised one [transform] throws a [TypeError]. *)
Theorem transform_empty_script (op1 op2 : Operation) (priority : bool) :
  Operation.fileId op1 = Operation.fileId op2 ->
  Operation.type op1 = None ->
  (Operation.type op2 = None ->
   OperationTransform.transform op1 op2 priority = Throws TypeError)
  /\ (Operation.type op2 = Some insert ->
      OperationTransform.transform op1 op2 priority
      = Returns (with_payload op1 insert Undefined (Operation.content op2)))
  /\ (forall kind,
        kind <> insert -> Operation.type op2 = Some kind ->
        OperationTransform.transform op1 op2 priority
        = Returns (with_payload op1 kind (Operation.length op2) None)).
Proof.
  intros Hf Ht1. repeat split.
  - intros Ht2. rewrite transform_same_file by done.
    unfold OperationTransform.transformTextOperations,
      OperationTransform.operationToTextOp.
    by rewrite Ht1, Ht2.
  - intros Ht2. rewrite transform_same_file by done.
    unfold OperationTransform.transformTextOperations,
      OperationTransform.operationToTextOp.
    by rewrite Ht1, Ht2.
  - intros kind Hk Ht2. rewrite transform_same_file by done.
    unfold OperationTransform.transformTextOperations,
      OperationTransform.operationToTextOp.
    rewrite Ht1, Ht2. by destruct kind.
Qed.

Lemma transform_empty_script_witness :
  let op1 :=
    Operation.mk (Some "op1") None Undefined None
                 (Some "user1") (Num 1000) (Some "file1") in
  let op2 := Delete "op2" "user2" "file1" 1001 3 in
  OperationTransform.transform op1 op2 false
  = Returns (Delete "op1" "user1" "file1" 1000 3).
Proof.
  apply (transform_empty_script
           (Operation.mk (Some "op1") None Undefined None
                         (Some "user1") (Num 1000) (Some "file1"))
           (Delete "op2" "user2" "file1" 1001 3) false);
    reflexivity || discriminate.
Defined.

(** ** Compose on accepted operations *)

Lemma compose_returns_frame (op1 op2 c : Operation) :
  OperationTransform.compose op1 op2 = Returns c ->
  Operation.id c = Operation.id op2
  /\ Operation.timestamp c = Operation.timestamp op2
  /\ Operation.author c = Operation.author op1
  /\ Operation.fileId c = Operation.fileId op1.
Proof.
  unfold OperationTransform.compose. case_decide; [done|].
  destruct (OperationTransform.composeTextOperations _ _) as [t| |];
    simpl; try done.
  intros Hc. apply textOpToOperation_frame in Hc. simpl in Hc. tauto.
Qed.

(** X10.  The operation [compose] returns has the [id] and the [timestamp]
    of the second operation and the [author] and the [fileId] of the first,
    which is also the [fileId] of the second. *)
Theorem compose_frame (op1 op2 c : Operation) :
  OperationTransform.compose op1 op2 = Returns c ->
  Operation.id c = Operation.id op2
  /\ Operation.timestamp c = Operation.timestamp op2
  /\ Operation.author c = Operation.author op1
  /\ Operation.fileId c = Operation.fileId op1
  /\ Operation.fileId c = Operation.fileId op2.
Proof.
  intros Hc. destruct (compose_returns_frame _ _ _ Hc) as (? & ? & ? & Hf).
  repeat split; try done.
  rewrite Hf. unfold OperationTransform.compose in Hc.
  by case_decide.
Qed.

Lemma compose_frame_witness :
  let op1 := Insert "op1" "user1" "file1" 1000 "Hello" in
  let op2 := Insert "op2" "user2" "file1" 1001 " World" in
  let c := Insert "op2" "user1" "file1" 1001 "Hello World" in
  OperationTransform.compose op1 op2 = Returns c
  /\ Operation.id c = Operation.id op2
  /\ Operation.timestamp c = Operation.timestamp op2
  /\ Operation.author c = Operation.author op1
  /\ Operation.fileId c = Operation.fileId op1
  /\ Operation.fileId c = Operation.fileId op2.
Proof.
  split; [reflexivity|].
  apply (compose_frame (Insert "op1" "user1" "file1" 1000 "Hello")
           (Insert "op2" "user2" "file1" 1001 " World")).
  reflexivity.
Defined.

Section ComposeOutcome.
Import OperationTransform.

Lemma payload_well_typed_length (c : Operation) (kind : OpType) (n : Z)
    (content : option string) :
  payload c = (Some kind, Num n, content) -> kind <> insert -> 0 < n ->
  well_typed c.
Proof.
  intros [= Ht Hl Hc] Hk Hn. right. split; [destruct kind; auto; done|].
  by exists n.
Qed.

Lemma payload_well_typed_insert (c : Operation) (l : jsnum) (s : string) :
  payload c = (Some insert, l, Some s) -> s <> EmptyString -> well_typed c.
Proof. intros [= Ht Hl Hc] Hs. left. split; [done|]. by exists s. Qed.

Lemma compose_valid_result (op1 op2 c : Operation) :
  isValidOperation op1 = true -> isValidOperation op2 = true ->
  compose op1 op2 = Returns c -> well_typed c ->
  isValidOperation c = true.
Proof.
  rewrite !isValidOperation_cases. intros Hv1 Hv2 Hc Hw.
  destruct (compose_returns_frame _ _ _ Hc) as (-> & -> & -> & ->). tauto.
Qed.

(** X11.  On accepted operations of one document whose lengths are integers
    [compose] ends: it throws a [TypeError] exactly when an insert is
    followed by a delete of the length of its content, and otherwise returns
    an operation that is accepted in its turn. *)
Theorem compose_valid_outcome (op1 op2 : Operation) :
  isValidOperation op1 = true -> isValidOperation op2 = true ->
  integral op1 -> integral op2 ->
  Operation.fileId op1 = Operation.fileId op2 ->
  (absorbed op1 op2 /\ compose op1 op2 = Throws TypeError)
  \/ (~ absorbed op1 op2
      /\ exists c, compose op1 op2 = Returns c
                   /\ isValidOperation c = true).
Proof.
  intros Hv1 Hv2 _ _ Hf.
  pose proof (valid_well_typed _ Hv1) as Hw1.
  pose proof (valid_well_typed _ Hv2) as Hw2.
  assert (Hreturns : forall c,
    compose op1 op2 = Returns c -> well_typed c ->
    exists c, compose op1 op2 = Returns c /\ isValidOperation c = true).
  { intros c Hc Hw. exists c. split; [done|].
    by apply (compose_valid_result op1 op2). }
  pose proof Hw1 as Hw1'. pose proof Hw2 as Hw2'.
  destruct Hw1' as [[Ht1 (c1 & Hc1 & Hne1)] | [Ht1 (a & Hl1 & Ha)]];
    destruct Hw2' as [[Ht2 (c2 & Hc2 & Hne2)] | [Ht2 (b & Hl2 & Hb)]].
  - right. split; [intros (_ & ? & _); congruence|].
    destruct (compose_insert_insert op1 op2 c1 c2) as (r & Hr & Hp);
      try done.
    apply (Hreturns r Hr).
    eapply payload_well_typed_insert; [done|]. by apply append_nonempty.
  - destruct Ht2 as [Ht2 | Ht2].
    + destruct (Z.lt_total (Js.strlen c1) b) as [Hlt | [Heq | Hgt]].
      * right. split.
        { intros (_ & _ & c & Hc & Hl).
          assert (b = Js.strlen c1) by congruence. lia. }
        destruct (compose_insert_delete_longer op1 op2 c1 b)
          as (r & Hr & Hp); try done.
        apply (Hreturns r Hr).
        eapply payload_well_typed_length; [done..|lia].
      * left. subst b. split; [repeat split; eauto|].
        by apply (compose_insert_delete_equal op1 op2 c1).
      * right. split.
        { intros (_ & _ & c & Hc & Hl).
          assert (b = Js.strlen c1) by congruence. lia. }
        destruct (compose_insert_delete_shorter op1 op2 c1 b)
          as (r & Hr & Hp); try done.
        apply (Hreturns r Hr).
        eapply payload_well_typed_insert; [done|].
        apply strlen_pos_nonempty. rewrite strlen_substring_suffix by lia.
        lia.
    + right. split; [intros (_ & ? & _); congruence|].
      destruct (compose_insert_retain_longer op1 op2 c1 b)
        as (r & Hr & Hp); try done.
      apply (Hreturns r Hr). by eapply payload_well_typed_insert.
  - right. split; [intros (? & _); destruct Ht1; congruence|].
    destruct (compose_push_first op1 op2) as (r & Hr & Hp); try done.
    { destruct Ht1; [right | left]; split; congruence. }
    apply (Hreturns r Hr). rewrite Hl1 in Hp.
    destruct Ht1 as [Ht1 | Ht1]; rewrite Ht1 in Hp;
      by eapply payload_well_typed_length.
  - right. split; [intros (? & _); destruct Ht1; congruence|].
    destruct Ht1 as [Ht1 | Ht1], Ht2 as [Ht2 | Ht2].
    + destruct (compose_delete_delete op1 op2 a b) as (r & Hr & Hp);
        try done.
      apply (Hreturns r Hr). eapply payload_well_typed_length; [done..|lia].
    + destruct (compose_delete_retain op1 op2 a b) as (r & Hr & Hp);
        try done.
      apply (Hreturns r Hr). by eapply payload_well_typed_length.
    + destruct (compose_push_first op1 op2) as (r & Hr & Hp); try done.
      { left. split; congruence. }
      apply (Hreturns r Hr). rewrite Ht1, Hl1 in Hp.
      by eapply payload_well_typed_length.
    + destruct (compose_retain_retain op1 op2 a b) as (r & Hr & Hp);
        try done.
      apply (Hreturns r Hr). eapply payload_well_typed_length; [done..|lia].
Qed.

Lemma compose_valid_outcome_witness :
  let op1 := Insert "op1" "user1" "file1" 1000 "Hello" in
  compose op1 (Delete "op2" "user1" "file1" 1001 5) = Throws TypeError
  /\ exists c,
       compose op1 (Delete "op2" "user1" "file1" 1001 2) = Returns c
       /\ isValidOperation c = true.
Proof.
  split.
  - destruct (compose_valid_outcome
                (Insert "op1" "user1" "file1" 1000 "Hello")
                (Delete "op2" "user1" "file1" 1001 5)
                eq_refl eq_refl
                (fun Hkind => match Hkind eq_refl with end)
                (fun _ => ex_intro _ 5 eq_refl) eq_refl)
      as [[_ Hthrows] | [Hnot _]]; [exact Hthrows|].
    destruct Hnot. repeat split. by exists "Hello"%string.
  - destruct (compose_valid_outcome
                (Insert "op1" "user1" "file1" 1000 "Hello")
                (Delete "op2" "user1" "file1" 1001 2)
                eq_refl eq_refl
                (fun Hkind => match Hkind eq_refl with end)
                (fun _ => ex_intro _ 2 eq_refl) eq_refl)
      as [[(_ & _ & c & Hc & Hl) _] | [_ Hr]]; [|exact Hr].
    injection Hc as <-. discriminate Hl.
Defined.

(** X13.  Two accepted operations of one kind on one document compose into
    one of that kind: two inserts into the insert of the joined contents,
    and, the lengths being integers whose sum is at most [2^53], two deletes
    into the delete of the summed lengths and two retains into the retain of
    the longer length. *)
Theorem compose_same_kind (op1 op2 : Operation) :
  isValidOperation op1 = true -> isValidOperation op2 = true ->
  Operation.fileId op1 = Operation.fileId op2 ->
  (forall c1 c2,
     Operation.content op1 = Some c1 -> Operation.content op2 = Some c2 ->
     Operation.type op1 = Some insert -> Operation.type op2 = Some insert ->
     exists c, compose op1 op2 = Returns c
               /\ payload c
                  = (Some insert, Undefined, Some (String.append c1 c2)))
  /\ (forall a b,
        Operation.length op1 = Num a -> Operation.length op2 = Num b ->
        a + b <= 2 ^ 53 ->
        (Operation.type op1 = Some delete ->
         Operation.type op2 = Some delete ->
         exists c, compose op1 op2 = Returns c
                   /\ payload c = (Some delete, Num (a + b), None))
        /\ (Operation.type op1 = Some retain ->
            Operation.type op2 = Some retain ->
            exists c, compose op1 op2 = Returns c
                      /\ payload c = (Some retain, Num (Z.max a b), None))).
Proof.
  intros Hv1%valid_well_typed Hv2%valid_well_typed Hf. split.
  - intros c1 c2 Hc1 Hc2 Ht1 Ht2. by apply compose_insert_insert.
  - intros a b Hl1 Hl2 _. split; intros Ht1 Ht2.
    + by apply compose_delete_delete.
    + apply compose_retain_retain; try done.
      * apply (well_typed_length_pos op1); congruence.
      * apply (well_typed_length_pos op2); congruence.
Qed.

Lemma compose_same_kind_witness :
  exists c,
    compose (Delete "op1" "user1" "file1" 1000 2)
            (Delete "op2" "user1" "file1" 1001 3) = Returns c
    /\ payload c = (Some delete, Num 5, None).
Proof.
  destruct (compose_same_kind (Delete "op1" "user1" "file1" 1000 2)
              (Delete "op2" "user1" "file1" 1001 3)
              eq_refl eq_refl eq_refl) as [_ Hlengths].
  destruct (Hlengths 2 3 eq_refl eq_refl) as [Hdeletes _].
  { vm_compute. discriminate. }
  exact (Hdeletes eq_refl eq_refl).
Defined.
End ComposeOutcome.

(** ** Compacted scripts *)

(** X14.  [compactTextOperation] leaves no two neighbouring steps of the
    same kind; it changes nothing in a script that has none, so compacting
    twice is compacting once. *)
Theorem compact_normal_form (textOp : TextOperation) :
  no_adjacent (ops (OperationTransform.compactTextOperation textOp))
  /\ (no_adjacent (ops textOp) ->
      OperationTransform.compactTextOperation textOp = textOp)
  /\ OperationTransform.compactTextOperation
       (OperationTransform.compactTextOperation textOp)
     = OperationTransform.compactTextOperation textOp.
Proof.
  unfold OperationTransform.compactTextOperation. simpl. split; [|split].
  - apply compact_no_adjacent.
  - intros Hno. destruct textOp as [script]. simpl in *.
    by rewrite compact_fixed.
  - f_equal. apply compact_fixed, compact_no_adjacent.
Qed.

(** X15.  On a script whose inserts carry a content and whose retains and
    deletes carry a length that is an integer and not negative, these
    lengths summing to at most [2^53], compacting does not change what
    [applyTextOperation] yields, on any text. *)
Theorem compact_preserves_apply (text : string) (textOp : TextOperation) :
  Forall walkable (ops textOp) ->
  walked (ops textOp) <= 2 ^ 53 ->
  OperationTransform.applyTextOperation text
    (OperationTransform.compactTextOperation textOp)
  = OperationTransform.applyTextOperation text textOp.
Proof.
  intros Hall _. rewrite !walk_apply. simpl. by rewrite compact_walk.
Qed.

Lemma compact_preserves_apply_witness :
  let textOp := {| ops := [Step.mk retain (Num 2) None;
                           Step.mk retain (Num 3) None;
                           Step.mk insert Undefined (Some ", "%string);
                           Step.mk insert Undefined (Some "dear"%string);
                           Step.mk delete (Num 1) None;
                           Step.mk retain (Num 5) None] |} in
  OperationTransform.compactTextOperation textOp
  = {| ops := [Step.mk retain (Num 5) None;
               Step.mk insert Undefined (Some ", dear"%string);
               Step.mk delete (Num 1) None;
               Step.mk retain (Num 5) None] |}
  /\ OperationTransform.applyTextOperation "Hello World"
       (OperationTransform.compactTextOperation textOp)
     = OperationTransform.applyTextOperation "Hello World" textOp.
Proof.
  split; [reflexivity|].
  apply compact_preserves_apply; [|vm_compute; discriminate].
  repeat (apply Forall_cons_2 || apply Forall_nil_2);
    first [by eexists | eexists; split; [reflexivity | lia]].
Defined.

(** ** Walks over a text *)

(** X16.  On such a script [applyTextOperation] yields no more code units
    than the text holds and the script inserts. *)
Theorem apply_length_bound (text : string) (textOp : TextOperation) :
  Forall walkable (ops textOp) ->
  Js.strlen (OperationTransform.applyTextOperation text textOp)
  <= Js.strlen text + inserted (ops textOp).
Proof.
  intros Hall. rewrite walk_apply.
  destruct (walk_bound text (ops textOp) Hall) as (i & _ & _ & Hlen). lia.
Qed.

Lemma apply_length_bound_witness :
  Js.strlen
    (OperationTransform.applyTextOperation "Hello"
       {| ops := [Step.mk retain (Num 9) None;
                  Step.mk insert Undefined (Some "!"%string);
                  Step.mk retain (Num 9) None] |})
  <= 5 + 1.
Proof.
  apply (apply_length_bound "Hello"
           {| ops := [Step.mk retain (Num 9) None;
                      Step.mk insert Undefined (Some "!"%string);
                      Step.mk retain (Num 9) None] |}).
  repeat (apply Forall_cons_2 || apply Forall_nil_2);
    first [by eexists | eexists; split; [reflexivity | lia]].
Defined.

(** X17.  A script that retains [k] code units, inserts [s] and retains
    what is left of the text yields the text with [s] put in at position
    [k]: [text.substring(0, k) + s + text.substring(k)]. *)
Theorem apply_insert_at (text s : string) (k m : Z) :
  0 <= k -> Js.strlen text <= k + m ->
  OperationTransform.applyTextOperation text
    {| ops := [Step.mk retain (Num k) None;
               Step.mk insert Undefined (Some s);
               Step.mk retain (Num m) None] |}
  = String.append (Js.substring text (Num 0) (Num k))
      (String.append s (Js.substring text (Num k) Undefined)).
Proof.
  intros Hk Hm. unfold OperationTransform.applyTextOperation.
  cbn -[Z.add Js.substring String.append]. rewrite !Z.add_0_l.
  rewrite (js_substring_to_end text k (k + m)) by done.
  by rewrite append_assoc.
Qed.

Lemma apply_insert_at_witness :
  OperationTransform.applyTextOperation "Hello World"
    {| ops := [Step.mk retain (Num 5) None;
               Step.mk insert Undefined (Some " Beautiful"%string);
               Step.mk retain (Num 6) None] |}
  = "Hello Beautiful World"%string.
Proof.
  rewrite (apply_insert_at "Hello World" " Beautiful" 5 6); [reflexivity|lia|].
  vm_compute. discriminate.
Defined.

(** X18.  A script that retains [k] code units, deletes [d] and retains [m],
    none of them negative and together no less than what the text holds,
    yields the text without the [d] code units at position [k]:
    [text.substring(0, k) + text.substring(k + d)]. *)
Theorem apply_delete_at (text : string) (k d m : Z) :
  0 <= k -> 0 <= d -> 0 <= m -> Js.strlen text <= k + d + m ->
  OperationTransform.applyTextOperation text
    {| ops := [Step.mk retain (Num k) None;
               Step.mk delete (Num d) None;
               Step.mk retain (Num m) None] |}
  = String.append (Js.substring text (Num 0) (Num k))
                  (Js.substring text (Num (k + d)) Undefined).
Proof.
  intros Hk Hd _ Hm. unfold OperationTransform.applyTextOperation.
  cbn -[Z.add Js.substring String.append]. rewrite !Z.add_0_l.
  by rewrite (js_substring_to_end text (k + d) (k + d + m)) by lia.
Qed.

Lemma apply_delete_at_witness :
  OperationTransform.applyTextOperation "Hello World"
    {| ops := [Step.mk retain (Num 5) None;
               Step.mk delete (Num 6) None;
               Step.mk retain (Num 1) None] |}
  = "Hello"%string.
Proof.
  rewrite (apply_delete_at "Hello World" 5 6 1); [reflexivity|lia|lia|lia|].
  vm_compute. discriminate.
Defined.

(** ** History: the last operation, clearing *)

Section HistoryMore.
Import OperationHistory.

Lemma trim_last (history : list Operation) (operation : Operation) :
  last (trim (history ++ [operation])) = Some operation.
Proof.
  unfold trim. pose proof maxHistorySize_pos as Hpos.
  generalize dependent maxHistorySize. intros n Hpos.
  case_match; [|apply last_snoc].
  rewrite length_app. simpl.
  destruct (decide (List.length history + 1 - n <= List.length history)%nat).
  - rewrite drop_app_le by done. apply last_snoc.
  - lia.
Qed.

Lemma length_trim (history : list Operation) :
  (List.length (trim history) <= maxHistorySize)%nat.
Proof.
  unfold trim. destruct (Nat.ltb_spec maxHistorySize (List.length history)).
  - rewrite length_drop. lia.
  - done.
Qed.

(** X19.  Whatever the history held, after [addOperation(fileId,
    operation)] the last operation of the document is [operation], the
    document holds at most 1000 operations, and the other documents are as
    they were. *)
Theorem addOperation_last (fileId : string) (operation : Operation)
    (operations : t) :
  let operations' := addOperation fileId operation operations in
  getLastOperation fileId operations' = Some operation
  /\ (List.length (getOperations fileId Undefined operations') <= 1000)%nat
  /\ forall other since,
       other <> fileId ->
       getOperations other since operations'
       = getOperations other since operations
       /\ getLastOperation other operations'
          = getLastOperation other operations.
Proof.
  simpl. unfold getLastOperation, getOperations. simpl.
  rewrite lookup_addOperation. case_decide; [|done].
  split; [apply trim_last|]. split; [apply length_trim|].
  intros other since Hother. rewrite lookup_addOperation.
  by case_decide.
Qed.

(** X20.  After any sequence of [addOperation] calls on a fresh history,
    [getLastOperation] gives the operation appended last for the document,
    and nothing for a document that had none: eviction never takes the
    latest. *)
Theorem getLastOperation_run (calls : list (string * Operation))
    (fileId : string) :
  getLastOperation fileId (run calls) = last (appended fileId calls).
Proof.
  unfold getLastOperation. rewrite run_history.
  unfold last_n. pose proof maxHistorySize_pos as Hpos.
  generalize dependent maxHistorySize. intros n Hpos.
  destruct (appended fileId calls) as [|x l _] using rev_ind; [done|].
  rewrite last_snoc, length_app. simpl.
  rewrite drop_app_le by lia. apply last_snoc.
Qed.

(** X21.  [clear(fileId)] empties the history of the document and leaves
    the others; an append after it starts the history anew; [clearAll]
    empties every history. *)
Theorem clear_history (fileId : string) (operations : t) :
  (forall since, getOperations fileId since (clear fileId operations) = [])
  /\ getLastOperation fileId (clear fileId operations) = None
  /\ (forall operation,
        getOperations fileId Undefined
          (addOperation fileId operation (clear fileId operations))
        = [operation])
  /\ (forall other since,
        other <> fileId ->
        getOperations other since (clear fileId operations)
        = getOperations other since operations)
  /\ (forall other since,
        getOperations other since (clearAll operations) = []
        /\ getLastOperation other (clearAll operations) = None).
Proof.
  unfold getOperations, getLastOperation, clear, clearAll.
  repeat split; intros.
  - rewrite lookup_delete_eq. simpl. by destruct (Js.truthy since).
  - by rewrite lookup_delete_eq.
  - simpl. rewrite lookup_addOperation. case_decide; [|done].
    by rewrite lookup_delete_eq.
  - by rewrite lookup_delete_ne.
  - rewrite lookup_empty. simpl. by destruct (Js.truthy since).
Qed.
End HistoryMore.

(** ** Conflict resolution *)

Section ResolverMore.
Import OperationTransform ConflictResolver.

(** X22.  The operation [resolveConflicts] returns has the [id], [author],
    [timestamp] and [fileId] of the new operation. *)
Theorem resolveConflicts_frame (newOperation : Operation)
    (existingOperations : list Operation) (r : Operation) :
  resolveConflicts newOperation existingOperations = Returns r ->
  Operation.id r = Operation.id newOperation
  /\ Operation.author r = Operation.author newOperation
  /\ Operation.timestamp r = Operation.timestamp newOperation
  /\ Operation.fileId r = Operation.fileId newOperation.
Proof. apply resolve_loop_frame. Qed.

Lemma resolveConflicts_frame_witness :
  let newOp := Insert "op2" "user2" "file1" 1001 "B" in
  let existingOp := Insert "op1" "user1" "file1" 1000 "A" in
  let r := Insert "op2" "user2" "file1" 1001 "BA" in
  resolveConflicts newOp [existingOp] = Returns r
  /\ Operation.id r = Operation.id newOp
  /\ Operation.author r = Operation.author newOp
  /\ Operation.timestamp r = Operation.timestamp newOp
  /\ Operation.fileId r = Operation.fileId newOp.
Proof.
  split; [reflexivity|].
  apply (resolveConflicts_frame (Insert "op2" "user2" "file1" 1001 "B")
           [Insert "op1" "user1" "file1" 1000 "A"]).
  reflexivity.
Defined.

(** X23.  Only the existing operations of the same document, by another
    author and not later than the new operation, count: [resolveConflicts]
    gives the same outcome on the list without the others, and returns the
    new operation as it is when none counts. *)
Theorem resolveConflicts_relevant (newOperation : Operation)
    (existingOperations : list Operation) :
  resolveConflicts newOperation existingOperations
  = resolveConflicts newOperation
      (List.filter (relevant newOperation) existingOperations)
  /\ (Forall (fun existingOp => relevant newOperation existingOp = false)
        existingOperations ->
      resolveConflicts newOperation existingOperations
      = Returns newOperation).
Proof.
  unfold resolveConflicts. split.
  - by apply resolve_loop_relevant.
  - intros Hall. rewrite resolve_loop_relevant by done.
    replace (List.filter (relevant newOperation) existingOperations)
      with (@nil Operation); [done|].
    induction Hall as [|x l Hx Hl IH]; simpl; [done|]. by rewrite Hx.
Qed.

(** X24.  On an accepted new operation and accepted existing operations, all
    of integer lengths, [resolveConflicts] ends, and the operation it
    returns is accepted. *)
Theorem resolveConflicts_keeps_accepted (newOperation : Operation)
    (existingOperations : list Operation) :
  isValidOperation newOperation = true ->
  Forall (fun op => isValidOperation op = true) existingOperations ->
  integral newOperation -> Forall integral existingOperations ->
  resolveConflicts newOperation existingOperations <> Diverges
  /\ forall r,
       resolveConflicts newOperation existingOperations = Returns r ->
       isValidOperation r = true.
Proof. intros Hnew Hall _ _. by apply resolve_loop_valid. Qed.

Lemma resolveConflicts_keeps_accepted_witness :
  let newOp := Retain "op3" "user3" "file1" 1002 4 in
  let existing := [Insert "op1" "user1" "file1" 1000 "AB";
                   Delete "op2" "user2" "file1" 1001 1] in
  resolveConflicts newOp existing = Returns (Retain "op3" "user3" "file1" 1002 5)
  /\ isValidOperation (Retain "op3" "user3" "file1" 1002 5) = true.
Proof.
  split; [reflexivity|].
  apply (resolveConflicts_keeps_accepted
           (Retain "op3" "user3" "file1" 1002 4)
           [Insert "op1" "user1" "file1" 1000 "AB";
            Delete "op2" "user2" "file1" 1001 1]);
    [reflexivity | by repeat constructor | intros _; by eexists
    | | reflexivity].
  repeat (apply Forall_cons_2 || apply Forall_nil_2);
    first [by intros Hkind; contradiction Hkind | intros _; by eexists].
Defined.

(** X25.  Two operations of distinct authors with the same timestamp: each
    resolved against the other is transformed against it once, and the two
    transforms run under opposite priorities, the greater author having
    it. *)
Theorem resolveConflicts_tie_break (opA opB : Operation) (a b : string)
    (t : Z) :
  Operation.author opA = Some a -> Operation.author opB = Some b ->
  a <> b ->
  Operation.timestamp opA = Num t -> Operation.timestamp opB = Num t ->
  let priority := author_gt (Some a) (Some b) in
  resolveConflicts opA [opB] = transform opA opB priority
  /\ resolveConflicts opB [opA] = transform opB opA (negb priority).
Proof.
  intros Ha Hb Hab HtA HtB priority. subst priority.
  unfold resolveConflicts, resolve_loop, concurrent.
  rewrite Ha, Hb, HtA, HtB. cbn [Js.le]. rewrite Z.leb_refl.
  rewrite !bool_decide_eq_true_2 by congruence. cbn [andb].
  split.
  - by destruct (transform opA opB _).
  - rewrite (author_gt_antisym a b Hab), negb_involutive.
    by destruct (transform opB opA _).
Qed.

Lemma resolveConflicts_tie_break_witness :
  let opA := Insert "opA" "a" "file1" 1000 " Beautiful" in
  let opB := Insert "opB" "b" "file1" 1000 " Amazing" in
  resolveConflicts opA [opB] = transform opA opB false
  /\ resolveConflicts opB [opA] = transform opB opA true.
Proof.
  apply (resolveConflicts_tie_break
           (Insert "opA" "a" "file1" 1000 " Beautiful")
           (Insert "opB" "b" "file1" 1000 " Amazing") "a" "b" 1000);
    reflexivity || discriminate.
Defined.

(** X26.  An operation recorded by the resolver is among those
    [getOperationsSince] returns for its document exactly when the
    watermark, not [0], is below its timestamp. *)
Theorem record_then_since (operation : Operation) (resolver : t)
    (fileId : string) (z since : Z) :
  Operation.fileId operation = Some fileId ->
  Operation.timestamp operation = Num z ->
  since <> 0 ->
  operation ∈ getOperationsSince fileId (Num since)
                (addOperation operation resolver)
  <-> since < z.
Proof.
  intros Hf Hz Hsince.
  unfold getOperationsSince, addOperation, OperationHistory.getOperations.
  rewrite Hf. simpl. rewrite (proj2 (Z.eqb_neq since 0)) by done. simpl.
  rewrite lookup_addOperation. case_decide; [|done].
  rewrite list_elem_of_In, List.filter_In, Hz. simpl. rewrite Z.ltb_lt.
  split; [tauto|]. intros Hlt. split; [|done].
  apply list_elem_of_In, last_Some_elem_of, trim_last.
Qed.

Lemma record_then_since_witness :
  let operation := Insert "op2" "user2" "file1" 2000 "B" in
  operation ∈ getOperationsSince "file1" (Num 1500)
                (addOperation operation ConflictResolver.new).
Proof.
  apply (record_then_since (Insert "op2" "user2" "file1" 2000 "B")
           ConflictResolver.new "file1" 2000 1500);
    reflexivity || discriminate.
Defined.
End ResolverMore.

(** ** Empty scripts *)

Section EmptyScripts.
Import OperationTransform.

Lemma transform_loop_rest1 (priority : bool) (ops1 result : list Step)
    (fuel : nat) :
  (List.length ops1 <= fuel)%nat ->
  while fuel (transform_turn priority) (ops1, [], result)
  = Returns (result ++ ops1).
Proof.
  revert result fuel.
  induction ops1 as [|operation1 rest1 IH]; intros result fuel Hfuel.
  - destruct fuel; simpl; by rewrite app_nil_r.
  - destruct fuel as [|fuel]; simpl in *; [lia|].
    rewrite IH by lia. by rewrite <- app_assoc.
Qed.

Lemma transform_loop_rest2 (priority : bool) (ops2 result : list Step)
    (fuel : nat) :
  (List.length ops2 <= fuel)%nat ->
  while fuel (transform_turn priority) ([], ops2, result)
  = Returns (result ++ ops2).
Proof.
  revert result fuel.
  induction ops2 as [|operation2 rest2 IH]; intros result fuel Hfuel.
  - destruct fuel; simpl; by rewrite app_nil_r.
  - destruct fuel as [|fuel]; simpl in *; [lia|].
    rewrite IH by lia. by rewrite <- app_assoc.
Qed.

Lemma compose_loop_rest1 (ops1 result : list Step) (fuel : nat) :
  (List.length ops1 <= fuel)%nat ->
  while fuel compose_turn (ops1, [], result) = Returns (result ++ ops1).
Proof.
  revert result fuel.
  induction ops1 as [|operation1 rest1 IH]; intros result fuel Hfuel.
  - destruct fuel; simpl; by rewrite app_nil_r.
  - destruct fuel as [|fuel]; simpl in *; [lia|].
    rewrite IH by lia. by rewrite <- app_assoc.
Qed.

Lemma compose_loop_rest2 (ops2 result : list Step) (fuel : nat) :
  (List.length ops2 <= fuel)%nat ->
  while fuel compose_turn ([], ops2, result) = Returns (result ++ ops2).
Proof.
  revert result fuel.
  induction ops2 as [|operation2 rest2 IH]; intros result fuel Hfuel.
  - destruct fuel; simpl; by rewrite app_nil_r.
  - destruct fuel as [|fuel]; simpl in *; [lia|].
    rewrite IH by lia. by rewrite <- app_assoc.
Qed.

(** X27.  Against the empty script, on either side, [transformTextOperations]
    and [composeTextOperations] return the other script compacted, whatever
    its steps. *)
Theorem empty_script_is_neutral (textOp : TextOperation) (priority : bool) :
  let empty := {| ops := [] |} in
  transformTextOperations textOp empty priority
  = Returns (compactTextOperation textOp)
  /\ transformTextOperations empty textOp priority
     = Returns (compactTextOperation textOp)
  /\ composeTextOperations textOp empty
     = Returns (compactTextOperation textOp)
  /\ composeTextOperations empty textOp
     = Returns (compactTextOperation textOp).
Proof.
  unfold transformTextOperations, composeTextOperations. simpl.
  rewrite transform_loop_rest1, transform_loop_rest2,
    compose_loop_rest1, compose_loop_rest2 by lia.
  destruct textOp as [script]. by repeat split.
Qed.
End EmptyScripts.
